(** * Daily min/max sensor: a model of [custom_components/daily_min_max/sensor.py]

    The sensor entity [DailyMinMaxSensor] is embedded as a record holding the
    attributes assigned in [__init__]; every method is a function from the
    entity to the entity it leaves behind, together with the list of effects
    (state writes, log lines, subscriptions) it performed on the host.

    Numbers.  A Python [float] is modelled as the rational a finite double
    denotes, an infinity, or [nan] (type [float] below); [<], [<=] and [==]
    are Python's, so every comparison with [nan] is false.  The two
    host-language primitives the code calls on numbers, [float(...)] on a
    string and [round(x, ndigits)], are taken as parameters of the
    development ([float_of_string], [py_round]). *)

From Stdlib Require Import QArith Qround Lqa Ascii String.
From stdpp Require Import gmap strings list.

Open Scope string_scope.

(** ** Constants of the module and of [homeassistant.const] *)

Definition STATE_UNKNOWN : string := "unknown".
Definition STATE_UNAVAILABLE : string := "unavailable".

Definition ATTR_MIN_VALUE : string := "min_value".
Definition ATTR_MIN_ENTITY_ID : string := "min_entity_id".
Definition ATTR_MAX_VALUE : string := "max_value".
Definition ATTR_MAX_ENTITY_ID : string := "max_entity_id".
Definition ATTR_COUNT_SENSORS : string := "count_sensors".
Definition ATTR_LAST : string := "last".
Definition ATTR_LAST_ENTITY_ID : string := "last_entity_id".

(** ** Data *)

(** A Python float: a finite value, [inf], [-inf] or [nan]. *)
Inductive float : Type :=
  | Fin (q : Q)
  | PInf
  | NInf
  | NaN.

Definition Qltb (a b : Q) : bool :=
  match Qcompare a b with Lt => true | _ => false end.

Definition is_nan (a : float) : bool :=
  match a with NaN => true | _ => false end.

(** [a < b] on floats. *)
Definition flt (a b : float) : bool :=
  match a, b with
  | NaN, _ | _, NaN => false
  | _, NInf => false
  | NInf, _ => true
  | PInf, _ => false
  | Fin _, PInf => true
  | Fin x, Fin y => Qltb x y
  end.

(** [a <= b] on floats. *)
Definition fle (a b : float) : bool :=
  match a, b with
  | NaN, _ | _, NaN => false
  | _, _ => negb (flt b a)
  end.

(** [a == b] on floats. *)
Definition feq (a b : float) : bool := fle a b && fle b a.

Definition float_lt (a b : float) : Prop := flt a b = true.
Definition float_le (a b : float) : Prop := fle a b = true.
Definition float_eq (a b : float) : Prop := feq a b = true.

Declare Scope float_scope.
Delimit Scope float_scope with F.
Bind Scope float_scope with float.
Infix "<" := float_lt : float_scope.
Infix "<=" := float_le : float_scope.
Infix "==" := float_eq : float_scope.

(** What [self.states] holds for an entity: the rounded float, or one of the
    two marker strings ([_async_sensor_state_listener] only ever stores
    [STATE_UNKNOWN]; [_calc_min] and [_calc_max] test for both). *)
Inductive sensor_value : Type :=
  | Num (x : float)
  | Unknown
  | Unavailable.

(** A value found in the attribute dictionary of a stored state: a JSON
    number or a string.  A missing key is [None] at lookup. *)
Inductive attr : Type :=
  | AttrNum (x : float)
  | AttrStr (s : string).

(** The [State] object carried by an event: its [state] string and
    [attributes.get(ATTR_UNIT_OF_MEASUREMENT)]. *)
Record State : Type := mkState {
  state : string;
  unit_of_measurement : option string
}.

(** [event.data]: the entity the event is about and its new state, absent
    when the entity was removed. *)
Record event : Type := mkEvent {
  ev_entity_id : string;
  new_state : option State
}.

(** Calls into the host that the methods make. *)
Inductive effect : Type :=
  | WriteHaState
  | WarnUnitMismatch
  | WarnNonNumeric (entity : string)
  | DebugManualReset
  | TrackStateChange (entity_ids : list string)
  | TrackTimeChange.

Record DailyMinMaxSensor : Type := mkSensor {
  _entity_ids : list string;
  _sensor_type : string;
  _round_digits : Z;
  _manual_reset_only : bool;
  _unit_of_measurement : option string;
  _unit_of_measurement_mismatch : bool;
  _attr_available : bool;
  min_value : option float;
  max_value : option float;
  last : option float;
  min_entity_id : option string;
  max_entity_id : option string;
  last_entity_id : option string;
  count_sensors : nat;
  states : gmap string sensor_value
}.

(** Field assignments. *)
Definition set_unit (u : option string) (s : DailyMinMaxSensor) :=
  mkSensor (_entity_ids s) (_sensor_type s) (_round_digits s)
    (_manual_reset_only s) u (_unit_of_measurement_mismatch s)
    (_attr_available s) (min_value s) (max_value s) (last s)
    (min_entity_id s) (max_entity_id s) (last_entity_id s)
    (count_sensors s) (states s).

Definition set_mismatch (b : bool) (s : DailyMinMaxSensor) :=
  mkSensor (_entity_ids s) (_sensor_type s) (_round_digits s)
    (_manual_reset_only s) (_unit_of_measurement s) b
    (_attr_available s) (min_value s) (max_value s) (last s)
    (min_entity_id s) (max_entity_id s) (last_entity_id s)
    (count_sensors s) (states s).

Definition set_available (b : bool) (s : DailyMinMaxSensor) :=
  mkSensor (_entity_ids s) (_sensor_type s) (_round_digits s)
    (_manual_reset_only s) (_unit_of_measurement s)
    (_unit_of_measurement_mismatch s) b (min_value s) (max_value s) (last s)
    (min_entity_id s) (max_entity_id s) (last_entity_id s)
    (count_sensors s) (states s).

Definition set_min (eid : option string) (v : option float) (s : DailyMinMaxSensor) :=
  mkSensor (_entity_ids s) (_sensor_type s) (_round_digits s)
    (_manual_reset_only s) (_unit_of_measurement s)
    (_unit_of_measurement_mismatch s) (_attr_available s)
    v (max_value s) (last s)
    eid (max_entity_id s) (last_entity_id s)
    (count_sensors s) (states s).

Definition set_max (eid : option string) (v : option float) (s : DailyMinMaxSensor) :=
  mkSensor (_entity_ids s) (_sensor_type s) (_round_digits s)
    (_manual_reset_only s) (_unit_of_measurement s)
    (_unit_of_measurement_mismatch s) (_attr_available s)
    (min_value s) v (last s)
    (min_entity_id s) eid (last_entity_id s)
    (count_sensors s) (states s).

Definition set_last (eid : option string) (v : option float) (s : DailyMinMaxSensor) :=
  mkSensor (_entity_ids s) (_sensor_type s) (_round_digits s)
    (_manual_reset_only s) (_unit_of_measurement s)
    (_unit_of_measurement_mismatch s) (_attr_available s)
    (min_value s) (max_value s) v
    (min_entity_id s) (max_entity_id s) eid
    (count_sensors s) (states s).

Definition set_state (eid : string) (v : sensor_value) (s : DailyMinMaxSensor) :=
  mkSensor (_entity_ids s) (_sensor_type s) (_round_digits s)
    (_manual_reset_only s) (_unit_of_measurement s)
    (_unit_of_measurement_mismatch s) (_attr_available s)
    (min_value s) (max_value s) (last s)
    (min_entity_id s) (max_entity_id s) (last_entity_id s)
    (count_sensors s) (<[eid := v]> (states s)).

(** ** [_calc_min] and [_calc_max]

    The loop variables [entity_id, val] are the accumulator; the body
    replaces both when the item is not a marker and [val] is [None] or
    strictly beyond it. *)

Definition calc_min_step (acc : option string * option float)
    (item : string * sensor_value) : option string * option float :=
  match item.2 with
  | Num sval =>
      match acc.2 with
      | None => (Some item.1, Some sval)
      | Some val => if flt sval val then (Some item.1, Some sval) else acc
      end
  | Unknown | Unavailable => acc
  end.

Fixpoint calc_min_loop (sensor_values : list (string * sensor_value))
    (acc : option string * option float) : option string * option float :=
  match sensor_values with
  | [] => acc
  | item :: rest => calc_min_loop rest (calc_min_step acc item)
  end.

Definition _calc_min (sensor_values : list (string * sensor_value))
    : option string * option float :=
  calc_min_loop sensor_values (None, None).

Definition calc_max_step (acc : option string * option float)
    (item : string * sensor_value) : option string * option float :=
  match item.2 with
  | Num sval =>
      match acc.2 with
      | None => (Some item.1, Some sval)
      | Some val => if flt val sval then (Some item.1, Some sval) else acc
      end
  | Unknown | Unavailable => acc
  end.

Fixpoint calc_max_loop (sensor_values : list (string * sensor_value))
    (acc : option string * option float) : option string * option float :=
  match sensor_values with
  | [] => acc
  | item :: rest => calc_max_loop rest (calc_max_step acc item)
  end.

Definition _calc_max (sensor_values : list (string * sensor_value))
    : option string * option float :=
  calc_max_loop sensor_values (None, None).

(** ** Methods of [DailyMinMaxSensor] that need no host primitive *)

(** [__init__]; [_attr_available] starts at the class default [True]. *)
Definition init (entity_ids : list string) (sensor_type : string)
    (round_digits : Z) (manual_reset_only : bool) : DailyMinMaxSensor :=
  mkSensor entity_ids sensor_type round_digits manual_reset_only
    None false true None None None None None None (length entity_ids) ∅.

(** The list comprehension at the head of [_calc_values]. *)
Fixpoint sensor_values_of (entity_ids : list string)
    (st : gmap string sensor_value) : list (string * sensor_value) :=
  match entity_ids with
  | [] => []
  | eid :: rest =>
      match st !! eid with
      | Some v => (eid, v) :: sensor_values_of rest st
      | None => sensor_values_of rest st
      end
  end.

Definition merge_min (c : option string * option float) (s : DailyMinMaxSensor)
    : DailyMinMaxSensor :=
  match c.2 with
  | Some min_val =>
      match min_value s with
      | None => set_min c.1 (Some min_val) s
      | Some cur => if flt min_val cur then set_min c.1 (Some min_val) s else s
      end
  | None => s
  end.

Definition merge_max (c : option string * option float) (s : DailyMinMaxSensor)
    : DailyMinMaxSensor :=
  match c.2 with
  | Some max_val =>
      match max_value s with
      | None => set_max c.1 (Some max_val) s
      | Some cur => if flt cur max_val then set_max c.1 (Some max_val) s else s
      end
  | None => s
  end.

Definition _calc_values (s : DailyMinMaxSensor) : DailyMinMaxSensor :=
  let sensor_values := sensor_values_of (_entity_ids s) (states s) in
  merge_max (_calc_max sensor_values) (merge_min (_calc_min sensor_values) s).

(** [reset]: the callback of the daily time trigger, also called by
    [async_reset]. *)
Definition reset (s : DailyMinMaxSensor) : DailyMinMaxSensor * list effect :=
  if _manual_reset_only s then (s, [])
  else
    (set_last None (last s)
       (set_max None (last s) (set_min None (last s) s)),
     [WriteHaState]).

(** [async_reset]: the handler registered for the [reset] service. *)
Definition async_reset (s : DailyMinMaxSensor) : DailyMinMaxSensor * list effect :=
  let '(s', effs) := reset s in (s', DebugManualReset :: effs).

(** [native_value]: the property marks the entity unavailable as a side
    effect when the units disagreed. *)
Definition native_value (s : DailyMinMaxSensor) : DailyMinMaxSensor * option float :=
  if _unit_of_measurement_mismatch s then (set_available false s, None)
  else if String.eqb (_sensor_type s) "min" then (s, min_value s)
  else (s, max_value s).

(** ** Sample host numerics

    A reader of decimal literals, [inf] and [nan], and an exact decimal
    rounding.  They stand in for [float] and [round] when a scenario is
    evaluated on concrete payloads; no theorem below depends on them. *)

Definition digit_of_ascii (c : ascii) : option Z :=
  let n := nat_of_ascii c in
  if (48 <=? n)%nat && (n <=? 57)%nat then Some (Z.of_nat (n - 48)) else None.

Fixpoint read_digits (s : string) (acc : Z) : option Z :=
  match s with
  | EmptyString => Some acc
  | String c rest =>
      match digit_of_ascii c with
      | Some d => read_digits rest (10 * acc + d)%Z
      | None => None
      end
  end.

Fixpoint split_dot (s : string) : string * option string :=
  match s with
  | EmptyString => (EmptyString, None)
  | String c rest =>
      if Ascii.eqb c "." then (EmptyString, Some rest)
      else let '(a, b) := split_dot rest in (String c a, b)
  end.

Definition unsigned_decimal (body : string) : option Q :=
  let '(ip, fp) := split_dot body in
  match fp with
  | None =>
      if String.eqb ip "" then None
      else match read_digits ip 0 with
           | Some n => Some (inject_Z n)
           | None => None
           end
  | Some f =>
      if String.eqb ip "" && String.eqb f "" then None
      else match read_digits ip 0, read_digits f 0 with
           | Some n, Some m =>
               let p := (10 ^ Z.of_nat (String.length f))%Z in
               Some (Qred (Qmake (n * p + m) (Z.to_pos p)))
           | _, _ => None
           end
  end.

Definition unsigned_float (body : string) : option float :=
  if String.eqb body "nan" then Some NaN
  else if String.eqb body "inf" || String.eqb body "infinity" then Some PInf
  else Fin <$> unsigned_decimal body.

Definition float_opp (a : float) : float :=
  match a with
  | Fin q => Fin (Qopp q)
  | PInf => NInf
  | NInf => PInf
  | NaN => NaN
  end.

Definition decimal_of_string (s : string) : option float :=
  match s with
  | String "-" body => float_opp <$> unsigned_float body
  | String "+" body => unsigned_float body
  | _ => unsigned_float s
  end.

Definition half_even (y : Q) : Z :=
  let f := Qfloor y in
  match Qcompare (y - inject_Z f) (1 # 2) with
  | Lt => f
  | Gt => (f + 1)%Z
  | Eq => if Z.even f then f else (f + 1)%Z
  end.

Definition round_rational (x : Q) (ndigits : Z) : Q :=
  if (0 <=? ndigits)%Z then
    let p := inject_Z (10 ^ ndigits) in
    Qred (inject_Z (half_even (x * p)) / p)
  else
    let p := inject_Z (10 ^ (- ndigits)) in
    Qred (inject_Z (half_even (x / p)) * p).

(** The infinities and [nan] round to themselves. *)
Definition round_decimal (x : float) (ndigits : Z) : float :=
  match x with
  | Fin q => Fin (round_rational q ndigits)
  | other => other
  end.

(** ** Methods that call [float] and [round] *)

Section Host.

(** [float(s)] on a string: [None] stands for [ValueError]. *)
Variable float_of_string : string -> option float.
(** [round(x, ndigits)] on a float with an integer [ndigits]. *)
Variable py_round : float -> Z -> float.

(** [float(attributes.get(key))]: [TypeError] on a missing key (the
    argument is [None]), [ValueError] on a string that is no number; both
    are [None] here, as both are caught alike by the caller. *)
Definition float_of_attr (a : option attr) : option float :=
  match a with
  | None => None
  | Some (AttrNum q) => Some q
  | Some (AttrStr str) => float_of_string str
  end.

(** [attributes.get(key)] for the three entity-id keys.  The entity ids
    kept by the sensor are strings; a stored id that is not a string is
    read as absent. *)
Definition id_of_attr (a : option attr) : option string :=
  match a with
  | Some (AttrStr str) => Some str
  | _ => None
  end.

(** [new_state.state in [STATE_UNKNOWN, STATE_UNAVAILABLE]]. *)
Definition is_marker (st : string) : bool :=
  String.eqb st STATE_UNKNOWN || String.eqb st STATE_UNAVAILABLE.

(** Lines 205-206: the first unit seen is recorded. *)
Definition record_unit (ns : State) (s : DailyMinMaxSensor) : DailyMinMaxSensor :=
  match _unit_of_measurement s with
  | None => set_unit (unit_of_measurement ns) s
  | Some _ => s
  end.

Definition _async_sensor_state_listener (ev : event) (s : DailyMinMaxSensor)
    : DailyMinMaxSensor * list effect :=
  let entity := ev_entity_id ev in
  let marker_branch :=
    (_calc_values (set_state entity Unknown s), [WriteHaState]) in
  match new_state ev with
  | None => marker_branch
  | Some ns =>
      if is_marker (state ns) then marker_branch
      else
        let s1 := record_unit ns s in
        if bool_decide (_unit_of_measurement s1 ≠ unit_of_measurement ns) then
          (set_available false (set_mismatch true s1), [WarnUnitMismatch])
        else
          match float_of_string (state ns) with
          | Some x =>
              let val := py_round x (_round_digits s1) in
              (_calc_values
                 (set_last (Some entity) (Some val)
                    (set_state entity (Num val) s1)),
               [WriteHaState])
          | None => (s1, [WarnNonNumeric entity])
          end
  end.

(** One [try: self.f = float(...) except (TypeError, ValueError): pass]. *)
Definition restore_min (attributes : gmap string attr) (s : DailyMinMaxSensor) :=
  match float_of_attr (attributes !! ATTR_MIN_VALUE) with
  | Some v => set_min (min_entity_id s) (Some v) s
  | None => s
  end.

Definition restore_max (attributes : gmap string attr) (s : DailyMinMaxSensor) :=
  match float_of_attr (attributes !! ATTR_MAX_VALUE) with
  | Some v => set_max (max_entity_id s) (Some v) s
  | None => s
  end.

Definition restore_last (attributes : gmap string attr) (s : DailyMinMaxSensor) :=
  match float_of_attr (attributes !! ATTR_LAST) with
  | Some v => set_last (last_entity_id s) (Some v) s
  | None => s
  end.

Definition restore_ids (attributes : gmap string attr) (s : DailyMinMaxSensor) :=
  set_last (id_of_attr (attributes !! ATTR_LAST_ENTITY_ID)) (last s)
    (set_max (id_of_attr (attributes !! ATTR_MAX_ENTITY_ID)) (max_value s)
       (set_min (id_of_attr (attributes !! ATTR_MIN_ENTITY_ID)) (min_value s) s)).

(** [async_added_to_hass]; [last_state] is what [async_get_last_state]
    returned, [None] when nothing was stored. *)
Definition async_added_to_hass (last_state : option (gmap string attr))
    (s : DailyMinMaxSensor) : DailyMinMaxSensor * list effect :=
  let s1 :=
    match last_state with
    | Some attributes =>
        restore_ids attributes
          (restore_last attributes
             (restore_max attributes (restore_min attributes s)))
    | None => s
    end in
  (_calc_values s1, [TrackStateChange (_entity_ids s); TrackTimeChange]).

(** ** The entity as a machine driven by the host *)

Inductive op : Type :=
  | Ingest (ev : event)
  | Recompute
  | TimeReset
  | ManualReset
  | Restore (last_state : option (gmap string attr))
  | ReadNativeValue.

Definition step (o : op) (s : DailyMinMaxSensor) : DailyMinMaxSensor * list effect :=
  match o with
  | Ingest ev => _async_sensor_state_listener ev s
  | Recompute => (_calc_values s, [])
  | TimeReset => reset s
  | ManualReset => async_reset s
  | Restore last_state => async_added_to_hass last_state s
  | ReadNativeValue => ((native_value s).1, [])
  end.

Fixpoint run (ops : list op) (s : DailyMinMaxSensor) : DailyMinMaxSensor :=
  match ops with
  | [] => s
  | o :: rest => run rest (step o s).1
  end.

Definition is_restore (o : op) : bool :=
  match o with Restore _ => true | _ => false end.


(** ** Predicates used by the statements *)

(** A reading that reaches the [try] block and parses: present, not a
    marker, a number. *)
Definition valid_numeric (ev : event) : bool :=
  match new_state ev with
  | Some ns =>
      negb (is_marker (state ns)) &&
      match float_of_string (state ns) with Some _ => true | None => false end
  | None => false
  end.

(** A marker reading: no new state, or the state is one of the markers. *)
Definition is_marker_event (ev : event) : bool :=
  match new_state ev with
  | Some ns => is_marker (state ns)
  | None => true
  end.

(** One step of a running minimum: kept, or replaced by a value strictly
    below it (any value when there was none). *)
Definition min_step (old new : option float) : Prop :=
  new = old ∨ ∃ b, new = Some b ∧ ∀ a, old = Some a → (b < a)%F.

Definition max_step (old new : option float) : Prop :=
  new = old ∨ ∃ b, new = Some b ∧ ∀ a, old = Some a → (a < b)%F.

(** Over several steps: once set, never unset, and the later value is the
    earlier one or strictly below (above) it. *)
Definition min_non_increasing (old new : option float) : Prop :=
  ∀ a, old = Some a → ∃ b, new = Some b ∧ (b = a ∨ (b < a)%F).

Definition max_non_decreasing (old new : option float) : Prop :=
  ∀ a, old = Some a → ∃ b, new = Some b ∧ (b = a ∨ (a < b)%F).

Definition extrema_ordered (s : DailyMinMaxSensor) : Prop :=
  ∀ a b, min_value s = Some a → max_value s = Some b → (a <= b)%F.

(** Every number stored for a tracked entity lies between the running
    extrema: what holds when all of them were merged by [_calc_values]
    since the extrema were last reset. *)
Definition within_extrema (s : DailyMinMaxSensor) : Prop :=
  ∀ eid v, eid ∈ _entity_ids s → states s !! eid = Some (Num v) →
    (∃ m, min_value s = Some m ∧ (m <= v)%F) ∧
    (∃ M, max_value s = Some M ∧ (v <= M)%F).

(** A stored snapshot does not put [min_value] above [max_value]. *)
Definition snapshot_ordered (last_state : option (gmap string attr)) : Prop :=
  match last_state with
  | Some attributes =>
      ∀ a b, float_of_attr (attributes !! ATTR_MIN_VALUE) = Some a →
             float_of_attr (attributes !! ATTR_MAX_VALUE) = Some b → (a <= b)%F
  | None => True
  end.

(** Once the units disagreed: flagged and unavailable. *)
Definition unit_mismatched (s : DailyMinMaxSensor) : Prop :=
  _unit_of_measurement_mismatch s = true ∧ _attr_available s = false.

(** The same fields of two entities, for the frame statements. *)
Definition same_extrema (s s' : DailyMinMaxSensor) : Prop :=
  min_value s' = min_value s ∧ min_entity_id s' = min_entity_id s ∧
  max_value s' = max_value s ∧ max_entity_id s' = max_entity_id s.

Definition same_last (s s' : DailyMinMaxSensor) : Prop :=
  last s' = last s ∧ last_entity_id s' = last_entity_id s.

End Host.

(** ** Scenario data *)

Definition sample_listener := _async_sensor_state_listener decimal_of_string round_decimal.

Definition sample_run := run decimal_of_string round_decimal.

Definition reading (entity payload : string) : event :=
  mkEvent entity (Some (mkState payload (Some "kWh"))).

(** A reading whose unit annotation is [unit]. *)
Definition reading_in (unit entity payload : string) : event :=
  mkEvent entity (Some (mkState payload (Some unit))).

(** Tracked [A] and [B]; [B] reports 3, then [A] reports 10. *)
Definition two_readings (manual_reset_only : bool) : DailyMinMaxSensor :=
  (sample_listener (reading "A" "10")
     (sample_listener (reading "B" "3")
        (init ["A"; "B"] "min" 2 manual_reset_only)).1).1.

(** Then the window is reset: the extrema restart at 10 while 3 stays
    stored for [B]. *)
Definition after_reset : DailyMinMaxSensor := (reset (two_readings false)).1.

(** The same readings on a sensor configured with [manual_reset_only]. *)
Definition manual_only_sensor : DailyMinMaxSensor := two_readings true.

(** The same readings, then one in another unit. *)
Definition mismatched_sensor : DailyMinMaxSensor :=
  (sample_listener (reading_in "Wh" "A" "20") (two_readings false)).1.

(** The snapshot of the restore scenario, under the attribute names the
    sensor writes ([ATTR_LAST] is the key of the last value). *)
Definition scenario_snapshot : gmap string attr :=
  {[ ATTR_MIN_VALUE := AttrStr "2.5";
     ATTR_MAX_VALUE := AttrStr "bad";
     ATTR_LAST := AttrStr "4.0" ]}.

Definition inverted_snapshot : gmap string attr :=
  {[ ATTR_MIN_VALUE := AttrNum (Fin 5); ATTR_MAX_VALUE := AttrNum (Fin 2) ]}.

Definition ordered_snapshot : gmap string attr :=
  {[ ATTR_MIN_VALUE := AttrNum (Fin 2); ATTR_MAX_VALUE := AttrNum (Fin 5) ]}.

(** A snapshot without [max_value], whose last value was stored as a
    number. *)
Definition partial_snapshot : gmap string attr :=
  {[ ATTR_MIN_VALUE := AttrStr "2.5"; ATTR_LAST := AttrNum (Fin 4) ]}.

(** Tracked [A] and [B]; [A] reports 5, then [A] reports [nan], which
    [float] accepts: nothing was reset, [min_value] is 5 held by [A], and
    the number stored for [A] is [nan]. *)
Definition nan_stored : DailyMinMaxSensor :=
  (sample_listener (reading "A" "nan")
     (sample_listener (reading "A" "5")
        (init ["A"; "B"] "min" 2 false)).1).1.

(** ** The scan of [_calc_min] and [_calc_max], up to the comparison *)

Fixpoint scan_loop (beats : float → float → bool)
    (sensor_values : list (string * sensor_value))
    (acc : option string * option float) : option string * option float :=
  match sensor_values with
  | [] => acc
  | (sid, Num sval) :: rest =>
      scan_loop beats rest
        match acc.2 with
        | None => (Some sid, Some sval)
        | Some val => if beats sval val then (Some sid, Some sval) else acc
        end
  | _ :: rest => scan_loop beats rest acc
  end.

(** ** [extra_state_attributes] and the other read-only properties *)

Definition ATTR_TO_PROPERTY : list string :=
  [ATTR_COUNT_SENSORS; ATTR_MAX_VALUE; ATTR_MAX_ENTITY_ID;
   ATTR_MIN_VALUE; ATTR_MIN_ENTITY_ID; ATTR_LAST; ATTR_LAST_ENTITY_ID].

(** [getattr(self, name)] for the names of [ATTR_TO_PROPERTY]: the value of
    the attribute, [None] when it holds Python's [None].  The count is an
    integer, the three values are floats, the three ids are strings. *)
Definition getattr (s : DailyMinMaxSensor) (name : string) : option attr :=
  if String.eqb name ATTR_COUNT_SENSORS then
    Some (AttrNum (Fin (inject_Z (Z.of_nat (count_sensors s)))))
  else if String.eqb name ATTR_MAX_VALUE then AttrNum <$> max_value s
  else if String.eqb name ATTR_MAX_ENTITY_ID then AttrStr <$> max_entity_id s
  else if String.eqb name ATTR_MIN_VALUE then AttrNum <$> min_value s
  else if String.eqb name ATTR_MIN_ENTITY_ID then AttrStr <$> min_entity_id s
  else if String.eqb name ATTR_LAST then AttrNum <$> last s
  else if String.eqb name ATTR_LAST_ENTITY_ID then AttrStr <$> last_entity_id s
  else None.

(** The dictionary comprehension: the names are taken in the order of the
    list and a name whose attribute is [None] is left out. *)
Definition extra_state_attributes (s : DailyMinMaxSensor) : gmap string attr :=
  foldl (λ d name,
           match getattr s name with
           | Some v => <[name := v]> d
           | None => d
           end)
        ∅ ATTR_TO_PROPERTY.

Definition native_unit_of_measurement (s : DailyMinMaxSensor) : option string :=
  _unit_of_measurement s.

(** ** Predicates of the further properties *)

(** The events among a sequence of operations. *)
Fixpoint ingested (ops : list op) : list event :=
  match ops with
  | [] => []
  | Ingest ev :: rest => ev :: ingested rest
  | _ :: rest => ingested rest
  end.

(** [v] is the rounded payload of one of the events [evs]. *)
Definition reported (float_of_string : string → option float) (py_round : float → Z → float)
    (round_digits : Z) (evs : list event) (v : float) : Prop :=
  ∃ ev ns x,
    ev ∈ evs ∧ new_state ev = Some ns ∧
    is_marker (state ns) = false ∧ float_of_string (state ns) = Some x ∧
    v = py_round x round_digits.

(** Every number the entity holds (stored for an entity, or in [min_value],
    [max_value] or [last]) is the rounded payload of one of the events. *)
Definition all_reported (float_of_string : string → option float)
    (py_round : float → Z → float) (evs : list event) (s : DailyMinMaxSensor) : Prop :=
  (∀ e v, states s !! e = Some (Num v) →
     reported float_of_string py_round (_round_digits s) evs v) ∧
  (∀ v, min_value s = Some v ∨ max_value s = Some v ∨ last s = Some v →
     reported float_of_string py_round (_round_digits s) evs v).

(** The attributes fixed by [__init__]. *)
Definition same_config (s s' : DailyMinMaxSensor) : Prop :=
  _entity_ids s' = _entity_ids s ∧ _sensor_type s' = _sensor_type s ∧
  _round_digits s' = _round_digits s ∧
  _manual_reset_only s' = _manual_reset_only s ∧
  count_sensors s' = count_sensors s.

(** ** Predicates about [nan] *)

(** None of the numbers the entity holds is [nan]. *)
Definition nan_free (s : DailyMinMaxSensor) : Prop :=
  (∀ e v, states s !! e = Some (Num v) → is_nan v = false) ∧
  (∀ v, min_value s = Some v ∨ max_value s = Some v ∨ last s = Some v →
     is_nan v = false).

(** None of the numbers of a list of pairs is [nan]. *)
Definition no_nan (l : list (string * sensor_value)) : Prop :=
  ∀ e v, (e, Num v) ∈ l → is_nan v = false.

(** The reading is one the listener would store as [nan]: present, not a
    marker, and its payload parses and rounds to [nan]. *)
Definition rounds_to_nan (float_of_string : string → option float)
    (py_round : float → Z → float) (round_digits : Z) (ev : event) : bool :=
  match new_state ev with
  | Some ns =>
      if is_marker (state ns) then false
      else match float_of_string (state ns) with
           | Some x => is_nan (py_round x round_digits)
           | None => false
           end
  | None => false
  end.

(** No event among the operations is such a reading. *)
Definition no_nan_reading (float_of_string : string → option float)
    (py_round : float → Z → float) (round_digits : Z) (ops : list op) : Prop :=
  ∀ ev, ev ∈ ingested ops →
    rounds_to_nan float_of_string py_round round_digits ev = false.

(** None of the three values of a stored snapshot reads as [nan]. *)
Definition snapshot_not_nan (float_of_string : string → option float)
    (last_state : option (gmap string attr)) : Prop :=
  match last_state with
  | Some attributes =>
      ∀ key v, key ∈ [ATTR_MIN_VALUE; ATTR_MAX_VALUE; ATTR_LAST] →
        float_of_attr float_of_string (attributes !! key) = Some v →
        is_nan v = false
  | None => True
  end.

(** * Properties *)

(** ** Comparisons *)

Lemma Qltb_true (a b : Q) : Qltb a b = true ↔ (a < b)%Q.
Proof.
  unfold Qltb. rewrite Qlt_alt.
  destruct (Qcompare a b); split; congruence.
Qed.

Lemma Qltb_false (a b : Q) : Qltb a b = false ↔ (b <= a)%Q.
Proof.
  split.
  - intros H. apply Qnot_lt_le. intros Hlt. apply Qltb_true in Hlt. congruence.
  - intros H. destruct (Qltb a b) eqn:E; [|done].
    apply Qltb_true in E. exfalso. apply (Qlt_not_le _ _ E H).
Qed.

(** Turns the comparisons of finite floats in the context and the goal into
    comparisons of rationals and hands them to [lra]. *)
Ltac float_order :=
  unfold float_lt, float_le, float_eq, feq, fle, flt, is_nan in *;
  simpl in *;
  repeat match goal with
         | H : negb _ = true |- _ => apply negb_true_iff in H
         | H : negb _ = false |- _ => apply negb_false_iff in H
         | H : _ && _ = true |- _ => apply andb_true_iff in H as [? ?]
         | H : Qltb _ _ = true |- _ => apply Qltb_true in H
         | H : Qltb _ _ = false |- _ => apply Qltb_false in H
         | |- negb _ = true => apply negb_true_iff
         | |- negb _ = false => apply negb_false_iff
         | |- _ && _ = true => apply andb_true_iff; split
         | |- Qltb _ _ = true => apply Qltb_true
         | |- Qltb _ _ = false => apply Qltb_false
         end;
  first [done | lra].

Lemma flt_irrefl a : flt a a = false.
Proof. destruct a; float_order. Qed.

Lemma flt_trans a b c : (a < b)%F → (b < c)%F → (a < c)%F.
Proof. destruct a, b, c; intros; float_order. Qed.

Lemma flt_fle a b : (a < b)%F → (a <= b)%F.
Proof. destruct a, b; intros; float_order. Qed.

Lemma flt_fle_trans a b c : (a < b)%F → (b <= c)%F → (a < c)%F.
Proof. destruct a, b, c; intros; float_order. Qed.

Lemma fle_flt_trans a b c : (a <= b)%F → (b < c)%F → (a < c)%F.
Proof. destruct a, b, c; intros; float_order. Qed.

Lemma fle_trans a b c : (a <= b)%F → (b <= c)%F → (a <= c)%F.
Proof. destruct a, b, c; intros; float_order. Qed.

Lemma fle_refl a : is_nan a = false → (a <= a)%F.
Proof. destruct a; intros; float_order. Qed.

(** [not (b < a)] gives [a <= b] only when neither is [nan]. *)
Lemma not_flt_fle a b :
  is_nan a = false → is_nan b = false → flt b a = false → (a <= b)%F.
Proof. destruct a, b; intros; float_order. Qed.

Lemma fle_not_flt a b : (a <= b)%F → flt b a = false.
Proof. destruct a, b; intros; float_order. Qed.

Lemma flt_not_nan a b : (a < b)%F → is_nan a = false ∧ is_nan b = false.
Proof. destruct a, b; intros; float_order. Qed.

Lemma fle_not_nan a b : (a <= b)%F → is_nan a = false ∧ is_nan b = false.
Proof. destruct a, b; intros; float_order. Qed.

Lemma feq_fle a b : (a == b)%F → (a <= b)%F ∧ (b <= a)%F.
Proof. unfold float_eq, float_le, feq. by intros [? ?]%andb_true_iff. Qed.

(** ** The scan, for any comparison that decides a strict order on the
    values that can be compared *)

Section Scan.

Variable beats : float → float → bool.
Variable before : float → float → Prop.   (* the weak order: [before a b], a is at least as extreme as b *)
Variable comparable : float → Prop.
Hypothesis before_refl : ∀ a, comparable a → before a a.
Hypothesis before_trans : ∀ a b c, before a b → before b c → before a c.
Hypothesis beats_before : ∀ a b, beats a b = true → before a b.
Hypothesis not_beats_before :
  ∀ a b, comparable a → comparable b → beats a b = false → before b a.

(** The value returned is at least as extreme as the accumulator and as
    every number scanned, when they can all be compared. *)
Lemma scan_loop_bound l : ∀ acc i a,
  (∀ c, acc.2 = Some c → comparable c) →
  (∀ e v, (e, Num v) ∈ l → comparable v) →
  scan_loop beats l acc = (i, Some a) →
  (∀ c, acc.2 = Some c → before a c) ∧
  (∀ e v, (e, Num v) ∈ l → before a v).
Proof.
  induction l as [|[sid sv] rest IH]; intros acc i a Hacc_ok Hl_ok Hres;
    simpl in Hres.
  - split; [|intros e v Hin; by apply elem_of_nil in Hin].
    intros c Hc. rewrite Hres in Hc. simpl in Hc. injection Hc as ->.
    apply before_refl, Hacc_ok. by rewrite Hres.
  - assert (Hrest_ok : ∀ e v, (e, Num v) ∈ rest → comparable v).
    { intros e v Hin. apply (Hl_ok e v). by right. }
    destruct acc as [ai av]. destruct sv as [sval| |]; simpl in Hres.
    + assert (Hsv_ok : comparable sval) by (apply (Hl_ok sid); by left).
      assert (Hboth : before a sval ∧ ∀ c, av = Some c → before a c).
      { destruct av as [val|]; [destruct (beats sval val) eqn:E|];
          apply IH in Hres as [Hacc _]; simpl in *; try done.
        - split; [by apply Hacc|]. intros c [= <-].
          eapply before_trans; [by apply Hacc|by apply beats_before].
        - by intros c [= <-].
        - split; [|intros c [= <-]; by apply Hacc].
          eapply before_trans; [by apply Hacc|].
          apply not_beats_before; [done| |done]. by apply Hacc_ok.
        - split; [by apply Hacc|done].
        - by intros c [= <-]. }
      destruct Hboth as [Hsv Hav]. split; [exact Hav|].
      intros e v [Hhd|Htl]%elem_of_cons.
      * by injection Hhd as -> ->.
      * destruct av as [val|]; [destruct (beats sval val)|];
          apply IH in Hres as [_ Hrest]; simpl in *; try done;
          try (by eapply Hrest); by intros c [= <-].
    + apply IH in Hres as [Hacc Hrest]; [|done..]. split; [done|].
      intros e v [Hhd|Htl]%elem_of_cons; [done|by eapply Hrest].
    + apply IH in Hres as [Hacc Hrest]; [|done..]. split; [done|].
      intros e v [Hhd|Htl]%elem_of_cons; [done|by eapply Hrest].
Qed.

(** The pair returned is the accumulator or an item of the list. *)
Lemma scan_loop_member l : ∀ acc i a,
  scan_loop beats l acc = (i, Some a) →
  acc = (i, Some a) ∨ ∃ e, i = Some e ∧ (e, Num a) ∈ l.
Proof.
  induction l as [|[sid sv] rest IH]; intros acc i a Hres; simpl in Hres.
  - by left.
  - destruct sv as [sval| |].
    + apply IH in Hres as [Hacc|(e & -> & Hin)].
      * destruct (acc.2) as [val|]; [destruct (beats sval val)|].
        -- injection Hacc as <- <-. right. eexists. split; [done|]. by left.
        -- by left.
        -- injection Hacc as <- <-. right. eexists. split; [done|]. by left.
      * right. exists e. split; [done|]. by right.
    + apply IH in Hres as [Hacc|(e & -> & Hin)]; [by left|].
      right. exists e. split; [done|]. by right.
    + apply IH in Hres as [Hacc|(e & -> & Hin)]; [by left|].
      right. exists e. split; [done|]. by right.
Qed.

(** Nothing is returned only if the list holds no number. *)
Lemma scan_loop_none l : ∀ acc i,
  scan_loop beats l acc = (i, None) →
  acc.2 = None ∧ ∀ e v, (e, Num v) ∉ l.
Proof.
  induction l as [|[sid sv] rest IH]; intros acc i Hres; simpl in Hres.
  - split; [by rewrite Hres|]. intros e v Hin. by apply elem_of_nil in Hin.
  - destruct sv as [sval| |].
    + apply IH in Hres as [Hacc _]. exfalso.
      destruct (acc.2) as [val|] eqn:Eacc; [destruct (beats sval val)|];
        simpl in Hacc; congruence.
    + apply IH in Hres as [Hacc Hrest]. split; [done|].
      intros e v [Hhd|Htl]%elem_of_cons; [done|by eapply Hrest].
    + apply IH in Hres as [Hacc Hrest]. split; [done|].
      intros e v [Hhd|Htl]%elem_of_cons; [done|by eapply Hrest].
Qed.

End Scan.

(** ** [_calc_min] and [_calc_max] as instances of the scan *)

Lemma calc_min_loop_scan l acc : calc_min_loop l acc = scan_loop flt l acc.
Proof.
  revert acc. induction l as [|[sid sv] rest IH]; intros acc; [done|].
  simpl. rewrite IH. unfold calc_min_step. simpl. by destruct sv.
Qed.

Lemma calc_max_loop_scan l acc :
  calc_max_loop l acc = scan_loop (λ sval val, flt val sval) l acc.
Proof.
  revert acc. induction l as [|[sid sv] rest IH]; intros acc; [done|].
  simpl. rewrite IH. unfold calc_max_step. simpl. by destruct sv.
Qed.

Lemma calc_min_bound l i a :
  no_nan l →
  _calc_min l = (i, Some a) → ∀ e v, (e, Num v) ∈ l → (a <= v)%F.
Proof.
  unfold _calc_min. rewrite calc_min_loop_scan. intros Hl H.
  eapply (scan_loop_bound flt float_le (λ x, is_nan x = false)) in H;
    [apply H| | | | | |].
  - apply fle_refl.
  - apply fle_trans.
  - apply flt_fle.
  - intros x y Hx Hy Hxy. by apply not_flt_fle.
  - by intros c [=].
  - exact Hl.
Qed.

Lemma calc_max_bound l i a :
  no_nan l →
  _calc_max l = (i, Some a) → ∀ e v, (e, Num v) ∈ l → (v <= a)%F.
Proof.
  unfold _calc_max. rewrite calc_max_loop_scan. intros Hl H.
  eapply (scan_loop_bound _ (λ x y, (y <= x)%F) (λ x, is_nan x = false)) in H;
    [apply H| | | | | |]; simpl.
  - apply fle_refl.
  - intros x y z Hxy Hyz. by eapply fle_trans.
  - intros x y. apply flt_fle.
  - intros x y Hx Hy Hxy. by apply not_flt_fle.
  - by intros c [=].
  - exact Hl.
Qed.

Lemma calc_min_member l i a :
  _calc_min l = (i, Some a) → ∃ e, i = Some e ∧ (e, Num a) ∈ l.
Proof.
  unfold _calc_min. rewrite calc_min_loop_scan.
  intros [H|H]%scan_loop_member; [done|exact H].
Qed.

Lemma calc_max_member l i a :
  _calc_max l = (i, Some a) → ∃ e, i = Some e ∧ (e, Num a) ∈ l.
Proof.
  unfold _calc_max. rewrite calc_max_loop_scan.
  intros [H|H]%scan_loop_member; [done|exact H].
Qed.

Lemma calc_min_none l i : _calc_min l = (i, None) → ∀ e v, (e, Num v) ∉ l.
Proof.
  unfold _calc_min. rewrite calc_min_loop_scan.
  intros [_ H]%scan_loop_none. exact H.
Qed.

Lemma calc_max_none l i : _calc_max l = (i, None) → ∀ e v, (e, Num v) ∉ l.
Proof.
  unfold _calc_max. rewrite calc_max_loop_scan.
  intros [_ H]%scan_loop_none. exact H.
Qed.

(** The candidates of one scan are ordered, when no number is [nan]. *)
Lemma calc_min_le_calc_max l i a j b :
  no_nan l →
  _calc_min l = (i, Some a) → _calc_max l = (j, Some b) → (a <= b)%F.
Proof.
  intros Hl Hmin Hmax. apply calc_max_member in Hmax as (e & _ & Hin).
  by eapply calc_min_bound.
Qed.


Lemma elem_of_sensor_values ids (st : gmap string sensor_value) e v :
  (e, v) ∈ sensor_values_of ids st ↔ e ∈ ids ∧ st !! e = Some v.
Proof.
  induction ids as [|eid rest IH]; simpl.
  - split; [by intros ?%elem_of_nil|by intros [?%elem_of_nil _]].
  - destruct (st !! eid) as [w|] eqn:E.
    + rewrite elem_of_cons, IH, elem_of_cons. split.
      * intros [[= -> ->]|[? ?]]; [by split; [left|]|by split; [right|]].
      * intros [[->|?] Hv]; [left; congruence|by right].
    + rewrite IH, elem_of_cons. split.
      * intros [? ?]. by split; [right|].
      * intros [[->|?] Hv]; [congruence|done].
Qed.

Lemma nan_free_sensor_values s :
  nan_free s → no_nan (sensor_values_of (_entity_ids s) (states s)).
Proof.
  intros [Hst _] e v [_ Hv]%elem_of_sensor_values. by eapply Hst.
Qed.

(** ** [_calc_values] *)

Ltac calc_frame :=
  unfold _calc_values, merge_max, merge_min; simpl;
  repeat case_match; simpl in *; congruence.

Lemma calc_values_states s : states (_calc_values s) = states s.
Proof. calc_frame. Qed.
Lemma calc_values_entity_ids s : _entity_ids (_calc_values s) = _entity_ids s.
Proof. calc_frame. Qed.
Lemma calc_values_last s : last (_calc_values s) = last s.
Proof. calc_frame. Qed.
Lemma calc_values_last_entity_id s :
  last_entity_id (_calc_values s) = last_entity_id s.
Proof. calc_frame. Qed.
Lemma calc_values_mismatch s :
  _unit_of_measurement_mismatch (_calc_values s) = _unit_of_measurement_mismatch s.
Proof. calc_frame. Qed.
Lemma calc_values_available s : _attr_available (_calc_values s) = _attr_available s.
Proof. calc_frame. Qed.
Lemma calc_values_unit s : _unit_of_measurement (_calc_values s) = _unit_of_measurement s.
Proof. calc_frame. Qed.

(** What the two merges leave in the four extremum fields. *)
Lemma calc_values_min s :
  let c := _calc_min (sensor_values_of (_entity_ids s) (states s)) in
  (min_entity_id (_calc_values s), min_value (_calc_values s)) =
  match c.2, min_value s with
  | Some v, None => (c.1, Some v)
  | Some v, Some cur =>
      if flt v cur then (c.1, Some v) else (min_entity_id s, min_value s)
  | None, _ => (min_entity_id s, min_value s)
  end.
Proof. calc_frame. Qed.

Lemma calc_values_max s :
  let c := _calc_max (sensor_values_of (_entity_ids s) (states s)) in
  (max_entity_id (_calc_values s), max_value (_calc_values s)) =
  match c.2, max_value s with
  | Some v, None => (c.1, Some v)
  | Some v, Some cur =>
      if flt cur v then (c.1, Some v) else (max_entity_id s, max_value s)
  | None, _ => (max_entity_id s, max_value s)
  end.
Proof. calc_frame. Qed.

Lemma calc_values_min_step s :
  min_step (min_value s) (min_value (_calc_values s)).
Proof.
  pose proof (calc_values_min s) as H. simpl in H.
  destruct (_calc_min _) as [i [v|]]; simpl in H;
    [destruct (min_value s) as [cur|] eqn:Ecur;
       [destruct (flt v cur) eqn:E|]|];
    injection H as _ H; rewrite H.
  - right. exists v. split; [done|]. by intros a [= <-].
  - by left.
  - right. exists v. split; [done|]. intros a [=].
  - by left.
Qed.

Lemma calc_values_max_step s :
  max_step (max_value s) (max_value (_calc_values s)).
Proof.
  pose proof (calc_values_max s) as H. simpl in H.
  destruct (_calc_max _) as [i [v|]]; simpl in H;
    [destruct (max_value s) as [cur|] eqn:Ecur;
       [destruct (flt cur v) eqn:E|]|];
    injection H as _ H; rewrite H.
  - right. exists v. split; [done|]. by intros a [= <-].
  - by left.
  - right. exists v. split; [done|]. intros a [=].
  - by left.
Qed.

(** The running minimum is kept when no stored number is below it. *)
Lemma calc_values_min_kept s m :
  min_value s = Some m →
  (∀ e v, e ∈ _entity_ids s → states s !! e = Some (Num v) → (m <= v)%F) →
  min_value (_calc_values s) = Some m ∧
  min_entity_id (_calc_values s) = min_entity_id s.
Proof.
  intros Hm Hfloor. pose proof (calc_values_min s) as H. simpl in H.
  destruct (_calc_min _) as [i [v|]] eqn:Ec; simpl in H; rewrite Hm in H.
  - apply calc_min_member in Ec as (e & _ & [He Hv]%elem_of_sensor_values).
    apply Hfloor in Hv; [|done]. apply fle_not_flt in Hv. rewrite Hv in H.
    by injection H as -> ->.
  - by injection H as -> ->.
Qed.

Lemma calc_values_max_kept s M :
  max_value s = Some M →
  (∀ e v, e ∈ _entity_ids s → states s !! e = Some (Num v) → (v <= M)%F) →
  max_value (_calc_values s) = Some M ∧
  max_entity_id (_calc_values s) = max_entity_id s.
Proof.
  intros Hm Hceil. pose proof (calc_values_max s) as H. simpl in H.
  destruct (_calc_max _) as [i [v|]] eqn:Ec; simpl in H; rewrite Hm in H.
  - apply calc_max_member in Ec as (e & _ & [He Hv]%elem_of_sensor_values).
    apply Hceil in Hv; [|done]. apply fle_not_flt in Hv. rewrite Hv in H.
    by injection H as -> ->.
  - by injection H as -> ->.
Qed.

(** With no number stored for a tracked entity nothing is merged. *)
Lemma calc_values_no_number s :
  (∀ e v, e ∈ _entity_ids s → states s !! e ≠ Some (Num v)) →
  _calc_values s = s.
Proof.
  intros Hno. unfold _calc_values.
  destruct (_calc_min _) as [i [v|]] eqn:Ec.
  { apply calc_min_member in Ec as (e & _ & [He Hv]%elem_of_sensor_values).
    by apply Hno in Hv. }
  destruct (_calc_max _) as [j [w|]] eqn:Ed.
  { apply calc_max_member in Ed as (e & _ & [He Hv]%elem_of_sensor_values).
    by apply Hno in Hv. }
  done.
Qed.

(** Stored numbers between the extrema: nothing moves. *)
Lemma calc_values_within_kept s :
  within_extrema s → same_extrema s (_calc_values s).
Proof.
  intros Hw. unfold same_extrema.
  pose proof (calc_values_min s) as Hmin. pose proof (calc_values_max s) as Hmax.
  simpl in Hmin, Hmax.
  destruct (_calc_min _) as [i [v|]] eqn:Ec; simpl in Hmin.
  - apply calc_min_member in Ec as (e & _ & [He Hv]%elem_of_sensor_values).
    destruct (Hw e v He Hv) as [(m & Hm & Hle) _].
    rewrite Hm in Hmin. apply fle_not_flt in Hle. rewrite Hle in Hmin.
    destruct (_calc_max _) as [j [w|]] eqn:Ed; simpl in Hmax.
    + apply calc_max_member in Ed as (e' & _ & [He' Hv']%elem_of_sensor_values).
      destruct (Hw e' w He' Hv') as [_ (M & HM & Hle')].
      rewrite HM in Hmax. apply fle_not_flt in Hle'. rewrite Hle' in Hmax.
      injection Hmin as -> ->. injection Hmax as -> ->. by rewrite Hm, HM.
    + injection Hmin as -> ->. injection Hmax as -> ->. by rewrite Hm.
  - destruct (_calc_max _) as [j [w|]] eqn:Ed; simpl in Hmax.
    + apply calc_max_member in Ed as (e' & _ & [He' Hv']%elem_of_sensor_values).
      destruct (Hw e' w He' Hv') as [_ (M & HM & Hle')].
      rewrite HM in Hmax. apply fle_not_flt in Hle'. rewrite Hle' in Hmax.
      injection Hmin as -> ->. injection Hmax as -> ->. by rewrite HM.
    + injection Hmin as -> ->. by injection Hmax as -> ->.
Qed.

(** After a recomputation every stored number lies between the extrema,
    provided none of the numbers is [nan]. *)
Lemma calc_values_within s : nan_free s → within_extrema (_calc_values s).
Proof.
  intros Hnf e v He Hv.
  pose proof (nan_free_sensor_values s Hnf) as Hl. destruct Hnf as [Hst Hval].
  rewrite calc_values_entity_ids in He. rewrite calc_values_states in Hv.
  assert (Hin : (e, Num v) ∈ sensor_values_of (_entity_ids s) (states s))
    by by apply elem_of_sensor_values.
  pose proof (calc_values_min s) as Hmin. pose proof (calc_values_max s) as Hmax.
  simpl in Hmin, Hmax. split.
  - destruct (_calc_min _) as [i [c|]] eqn:Ec; simpl in Hmin;
      [|by eapply calc_min_none in Ec].
    pose proof (calc_min_bound _ _ _ Hl Ec _ _ Hin) as Hc.
    destruct (min_value s) as [cur|] eqn:Ecur; [destruct (flt c cur) eqn:E|];
      injection Hmin as _ ->; eexists; (split; [done|]); [done| |done].
    eapply fle_trans; [|exact Hc].
    apply not_flt_fle; [apply Hval; by left| |done].
    by destruct (fle_not_nan _ _ Hc).
  - destruct (_calc_max _) as [i [c|]] eqn:Ec; simpl in Hmax;
      [|by eapply calc_max_none in Ec].
    pose proof (calc_max_bound _ _ _ Hl Ec _ _ Hin) as Hc.
    destruct (max_value s) as [cur|] eqn:Ecur; [destruct (flt cur c) eqn:E|];
      injection Hmax as _ ->; eexists; (split; [done|]); [done| |done].
    eapply fle_trans; [exact Hc|].
    apply not_flt_fle; [|apply Hval; right; by left|done].
    by destruct (fle_not_nan _ _ Hc).
Qed.

(** Merging ordered candidates into ordered extrema keeps them ordered,
    when none of the four numbers is [nan]. *)
Lemma merged_extrema_ordered (om oM : option float) c d a b :
  (c <= d)%F →
  (∀ m, om = Some m → is_nan m = false) →
  (∀ M, oM = Some M → is_nan M = false) →
  (∀ m M, om = Some m → oM = Some M → (m <= M)%F) →
  a = match om with
      | None => c
      | Some m => if flt c m then c else m
      end →
  b = match oM with
      | None => d
      | Some M => if flt M d then d else M
      end →
  (a <= b)%F.
Proof.
  intros Hcd Hm HM Hord -> ->.
  destruct (fle_not_nan _ _ Hcd) as [Hc Hd].
  destruct om as [m|]; [destruct (flt c m) eqn:E1|];
    (destruct oM as [M|]; [destruct (flt M d) eqn:E2|]); try done.
  - eapply fle_trans; [|apply (Hord m M); done]. by apply flt_fle.
  - apply flt_fle. eapply fle_flt_trans; [by apply (Hord m M)|exact E2].
  - by apply Hord.
  - eapply fle_trans; [|exact Hcd]. apply not_flt_fle; [by apply Hm|done|done].
  - eapply fle_trans; [exact Hcd|]. apply not_flt_fle; [done|by apply HM|done].
Qed.

(** A recomputation keeps the extrema ordered, when no number is [nan]. *)
Lemma calc_values_ordered s :
  nan_free s → extrema_ordered s → extrema_ordered (_calc_values s).
Proof.
  intros Hnf Hord a b Ha Hb.
  pose proof (nan_free_sensor_values s Hnf) as Hl. destruct Hnf as [Hst Hval].
  pose proof (calc_values_min s) as Hmin. pose proof (calc_values_max s) as Hmax.
  simpl in Hmin, Hmax. rewrite Ha in Hmin. rewrite Hb in Hmax.
  destruct (_calc_min _) as [i [c|]] eqn:Ec;
    destruct (_calc_max _) as [j [d|]] eqn:Ed; simpl in Hmin, Hmax.
  - pose proof (calc_min_le_calc_max _ _ _ _ _ Hl Ec Ed) as Hcd.
    apply (merged_extrema_ordered (min_value s) (max_value s) c d); try done.
    + intros m Hm. apply Hval. by left.
    + intros M HM. apply Hval. right. by left.
    + destruct (min_value s) as [m|]; [destruct (flt c m)|];
        injection Hmin as _ Hmin; congruence.
    + destruct (max_value s) as [M|]; [destruct (flt M d)|];
        injection Hmax as _ Hmax; congruence.
  - apply calc_min_member in Ec as (e & _ & Hin).
    by eapply calc_max_none in Ed.
  - apply calc_max_member in Ed as (e & _ & Hin).
    by eapply calc_min_none in Ec.
  - injection Hmin as _ Hmin. injection Hmax as _ Hmax. by apply Hord.
Qed.

(** A recomputation brings in no [nan]. *)
Lemma calc_values_nan_free s : nan_free s → nan_free (_calc_values s).
Proof.
  intros [Hst Hval]. split.
  - intros e v. rewrite calc_values_states. apply Hst.
  - pose proof (calc_values_min s) as Hmin.
    pose proof (calc_values_max s) as Hmax. simpl in Hmin, Hmax.
    intros v [Hv|[Hv|Hv]].
    + rewrite Hv in Hmin.
      destruct (_calc_min _) as [i [c|]] eqn:Ec; simpl in Hmin.
      * apply calc_min_member in Ec as (e & _ & [_ Hc]%elem_of_sensor_values).
        destruct (min_value s) as [cur|] eqn:Ecur; [destruct (flt c cur)|];
          injection Hmin as _ Hmin; simplify_eq;
          first [by eapply Hst | apply Hval; by left].
      * injection Hmin as _ Hmin. apply Hval. by left.
    + rewrite Hv in Hmax.
      destruct (_calc_max _) as [i [c|]] eqn:Ec; simpl in Hmax.
      * apply calc_max_member in Ec as (e & _ & [_ Hc]%elem_of_sensor_values).
        destruct (max_value s) as [cur|] eqn:Ecur; [destruct (flt cur c)|];
          injection Hmax as _ Hmax; simplify_eq;
          first [by eapply Hst | apply Hval; right; by left].
      * injection Hmax as _ Hmax. apply Hval. right. by left.
    + rewrite calc_values_last in Hv. apply Hval. by repeat right.
Qed.

(** A stored number strictly below the running minimum and below every
    other stored number becomes the minimum, with its entity. *)
Lemma calc_values_new_min s e r m :
  e ∈ _entity_ids s →
  states s !! e = Some (Num r) →
  min_value s = Some m → (r < m)%F →
  (∀ e' v, e' ∈ _entity_ids s → e' ≠ e →
     states s !! e' = Some (Num v) → (m <= v)%F) →
  min_value (_calc_values s) = Some r ∧
  min_entity_id (_calc_values s) = Some e.
Proof.
  intros He Hr Hm Hlt Hothers.
  pose proof (calc_values_min s) as H. simpl in H. rewrite Hm in H.
  assert (Hin : (e, Num r) ∈ sensor_values_of (_entity_ids s) (states s))
    by by apply elem_of_sensor_values.
  assert (Hl : no_nan (sensor_values_of (_entity_ids s) (states s))).
  { intros e' v [He' Hv]%elem_of_sensor_values.
    destruct (decide (e' = e)) as [->|Hne].
    - rewrite Hr in Hv. injection Hv as <-. by destruct (flt_not_nan _ _ Hlt).
    - by destruct (fle_not_nan _ _ (Hothers _ _ He' Hne Hv)). }
  destruct (_calc_min _) as [i [a|]] eqn:Ec; simpl in H;
    [|by eapply calc_min_none in Ec].
  pose proof (calc_min_bound _ _ _ Hl Ec _ _ Hin) as Har.
  apply calc_min_member in Ec as (e' & -> & [He' Hv]%elem_of_sensor_values).
  destruct (decide (e' = e)) as [->|Hne].
  - rewrite Hr in Hv. injection Hv as <-.
    unfold float_lt in Hlt. rewrite Hlt in H. by injection H as -> ->.
  - pose proof (Hothers _ _ He' Hne Hv) as Hma.
    pose proof (fle_not_flt _ _ (fle_trans _ _ _ Hma Har)) as Hc.
    unfold float_lt in Hlt. congruence.
Qed.

Lemma calc_values_new_max s e r M :
  e ∈ _entity_ids s →
  states s !! e = Some (Num r) →
  max_value s = Some M → (M < r)%F →
  (∀ e' v, e' ∈ _entity_ids s → e' ≠ e →
     states s !! e' = Some (Num v) → (v <= M)%F) →
  max_value (_calc_values s) = Some r ∧
  max_entity_id (_calc_values s) = Some e.
Proof.
  intros He Hr Hm Hlt Hothers.
  pose proof (calc_values_max s) as H. simpl in H. rewrite Hm in H.
  assert (Hin : (e, Num r) ∈ sensor_values_of (_entity_ids s) (states s))
    by by apply elem_of_sensor_values.
  assert (Hl : no_nan (sensor_values_of (_entity_ids s) (states s))).
  { intros e' v [He' Hv]%elem_of_sensor_values.
    destruct (decide (e' = e)) as [->|Hne].
    - rewrite Hr in Hv. injection Hv as <-. by destruct (flt_not_nan _ _ Hlt).
    - by destruct (fle_not_nan _ _ (Hothers _ _ He' Hne Hv)). }
  destruct (_calc_max _) as [i [a|]] eqn:Ec; simpl in H;
    [|by eapply calc_max_none in Ec].
  pose proof (calc_max_bound _ _ _ Hl Ec _ _ Hin) as Har.
  apply calc_max_member in Ec as (e' & -> & [He' Hv]%elem_of_sensor_values).
  destruct (decide (e' = e)) as [->|Hne].
  - rewrite Hr in Hv. injection Hv as <-.
    unfold float_lt in Hlt. rewrite Hlt in H. by injection H as -> ->.
  - pose proof (Hothers _ _ He' Hne Hv) as Hma.
    pose proof (fle_not_flt _ _ (fle_trans _ _ _ Har Hma)) as Hc.
    unfold float_lt in Hlt. congruence.
Qed.

(** ** The listener and the machine *)

Section Properties.

Variable float_of_string : string → option float.
Variable py_round : float → Z → float.

Local Abbreviation listen := (_async_sensor_state_listener float_of_string py_round).
Local Abbreviation added_to_hass := (async_added_to_hass float_of_string).
Local Abbreviation exec := (run float_of_string py_round).
Local Abbreviation do_step := (step float_of_string py_round).

(** Case analysis following the branches of the listener. *)
Ltac listener_cases ev :=
  unfold _async_sensor_state_listener;
  destruct (new_state ev) as [?ns|];
    [destruct (is_marker (state _)) eqn:?Emarker;
       [|case_bool_decide;
          [|destruct (float_of_string (state _)) as [?x|] eqn:?Efloat]]|];
  simpl.

Ltac record_unit_frame :=
  unfold record_unit; simpl; repeat case_match; simpl in *; congruence.

Lemma record_unit_min_value ns s : min_value (record_unit ns s) = min_value s.
Proof. record_unit_frame. Qed.
Lemma record_unit_max_value ns s : max_value (record_unit ns s) = max_value s.
Proof. record_unit_frame. Qed.
Lemma record_unit_min_entity_id ns s :
  min_entity_id (record_unit ns s) = min_entity_id s.
Proof. record_unit_frame. Qed.
Lemma record_unit_max_entity_id ns s :
  max_entity_id (record_unit ns s) = max_entity_id s.
Proof. record_unit_frame. Qed.
Lemma record_unit_last ns s : last (record_unit ns s) = last s.
Proof. record_unit_frame. Qed.
Lemma record_unit_last_entity_id ns s :
  last_entity_id (record_unit ns s) = last_entity_id s.
Proof. record_unit_frame. Qed.
Lemma record_unit_states ns s : states (record_unit ns s) = states s.
Proof. record_unit_frame. Qed.
Lemma record_unit_entity_ids ns s : _entity_ids (record_unit ns s) = _entity_ids s.
Proof. record_unit_frame. Qed.
Lemma record_unit_round_digits ns s :
  _round_digits (record_unit ns s) = _round_digits s.
Proof. record_unit_frame. Qed.
Lemma record_unit_mismatch ns s :
  _unit_of_measurement_mismatch (record_unit ns s) = _unit_of_measurement_mismatch s.
Proof. record_unit_frame. Qed.
Lemma record_unit_available ns s :
  _attr_available (record_unit ns s) = _attr_available s.
Proof. record_unit_frame. Qed.

(** The unit, once recorded, is kept. *)
Lemma record_unit_recorded ns s u :
  _unit_of_measurement s = Some u → record_unit ns s = s.
Proof. intros H. unfold record_unit. by rewrite H. Qed.

Lemma record_unit_same ns s :
  _unit_of_measurement s = unit_of_measurement ns → record_unit ns s = s.
Proof.
  intros H. unfold record_unit. destruct (_unit_of_measurement s) eqn:E; [done|].
  destruct s; simpl in *. unfold set_unit; simpl. congruence.
Qed.

(** The marker branch, lines 199-203. *)
Lemma listener_marker ev s :
  is_marker_event ev = true →
  listen ev s =
    (_calc_values (set_state (ev_entity_id ev) Unknown s), [WriteHaState]).
Proof.
  unfold is_marker_event, _async_sensor_state_listener.
  destruct (new_state ev) as [ns|]; [|done]. by intros ->.
Qed.

(** The [try] block with a payload that parses, lines 214-224. *)
Lemma listener_numeric ev s ns x :
  new_state ev = Some ns →
  is_marker (state ns) = false →
  _unit_of_measurement (record_unit ns s) = unit_of_measurement ns →
  float_of_string (state ns) = Some x →
  let val := py_round x (_round_digits s) in
  listen ev s =
    (_calc_values
       (set_last (Some (ev_entity_id ev)) (Some val)
          (set_state (ev_entity_id ev) (Num val) (record_unit ns s))),
     [WriteHaState]).
Proof.
  intros Hns Hmarker Hunit Hfloat. unfold _async_sensor_state_listener.
  rewrite Hns, Hmarker. rewrite bool_decide_eq_false_2 by (by intros ?).
  by rewrite Hfloat, record_unit_round_digits.
Qed.

(** Every call of the listener keeps each extremum or tightens it. *)
Lemma listener_min_step ev s :
  min_step (min_value s) (min_value (listen ev s).1).
Proof.
  listener_cases ev.
  - apply (calc_values_min_step (set_state _ _ s)).
  - left. apply record_unit_min_value.
  - rewrite <- (record_unit_min_value ns s) at 1.
    apply (calc_values_min_step (set_last _ _ (set_state _ _ _))).
  - left. apply record_unit_min_value.
  - apply (calc_values_min_step (set_state _ _ s)).
Qed.

Lemma listener_max_step ev s :
  max_step (max_value s) (max_value (listen ev s).1).
Proof.
  listener_cases ev.
  - apply (calc_values_max_step (set_state _ _ s)).
  - left. apply record_unit_max_value.
  - rewrite <- (record_unit_max_value ns s) at 1.
    apply (calc_values_max_step (set_last _ _ (set_state _ _ _))).
  - left. apply record_unit_max_value.
  - apply (calc_values_max_step (set_state _ _ s)).
Qed.

Lemma min_step_non_increasing old new :
  min_step old new → min_non_increasing old new.
Proof.
  intros [->|(b & -> & Hb)] a Ha.
  - exists a. split; [done|]. by left.
  - exists b. split; [done|]. right. by apply Hb.
Qed.

Lemma max_step_non_decreasing old new :
  max_step old new → max_non_decreasing old new.
Proof.
  intros [->|(b & -> & Hb)] a Ha.
  - exists a. split; [done|]. by left.
  - exists b. split; [done|]. right. by apply Hb.
Qed.

Lemma min_non_increasing_trans x y z :
  min_non_increasing x y → min_non_increasing y z → min_non_increasing x z.
Proof.
  intros Hxy Hyz a Ha. destruct (Hxy a Ha) as (b & Hb & Hba).
  destruct (Hyz b Hb) as (c & Hc & Hcb). exists c. split; [done|].
  destruct Hba as [->|Hba], Hcb as [->|Hcb]; [by left|by right|by right|].
  right. by eapply flt_trans.
Qed.

Lemma max_non_decreasing_trans x y z :
  max_non_decreasing x y → max_non_decreasing y z → max_non_decreasing x z.
Proof.
  intros Hxy Hyz a Ha. destruct (Hxy a Ha) as (b & Hb & Hba).
  destruct (Hyz b Hb) as (c & Hc & Hcb). exists c. split; [done|].
  destruct Hba as [->|Hba], Hcb as [->|Hcb]; [by left|by right|by right|].
  right. by eapply flt_trans.
Qed.

(** Over any run of ingestions the extrema only tighten. *)
Lemma ingest_run_monotone evs : ∀ s,
  min_non_increasing (min_value s) (min_value (exec (Ingest <$> evs) s)) ∧
  max_non_decreasing (max_value s) (max_value (exec (Ingest <$> evs) s)).
Proof.
  induction evs as [|ev rest IH]; intros s; simpl.
  - split; intros a Ha; exists a; (split; [done|by left]).
  - destruct (IH (listen ev s).1) as [Hmin Hmax]. split.
    + eapply min_non_increasing_trans; [|exact Hmin].
      apply min_step_non_increasing, listener_min_step.
    + eapply max_non_decreasing_trans; [|exact Hmax].
      apply max_step_non_decreasing, listener_max_step.
Qed.

(** C2. Along a sequence of valid numeric readings, with no reset and no
    restore in between, each ingestion keeps [min_value] or moves it
    strictly down and keeps [max_value] or moves it strictly up; and
    between any earlier and any later state of the sequence [min_value]
    has not increased and [max_value] has not decreased (once set they
    stay set). *)
Theorem C2_extrema_tighten_between_resets s evs1 ev evs2 :
  forallb (valid_numeric float_of_string) (evs1 ++ ev :: evs2) = true →
  let s1 := exec (Ingest <$> evs1) s in
  let s2 := (listen ev s1).1 in
  let s3 := exec (Ingest <$> evs2) s2 in
  min_step (min_value s1) (min_value s2) ∧
  max_step (max_value s1) (max_value s2) ∧
  min_non_increasing (min_value s1) (min_value s3) ∧
  max_non_decreasing (max_value s1) (max_value s3).
Proof.
  intros _ s1 s2 s3.
  destruct (ingest_run_monotone evs2 s2) as [Hmin Hmax].
  repeat split.
  - apply listener_min_step.
  - apply listener_max_step.
  - eapply min_non_increasing_trans; [|exact Hmin].
    apply min_step_non_increasing, listener_min_step.
  - eapply max_non_decreasing_trans; [|exact Hmax].
    apply max_step_non_decreasing, listener_max_step.
Qed.

(** ** Reset *)

Lemma reset_manual_only s :
  _manual_reset_only s = true →
  reset s = (s, []) ∧ async_reset s = (s, [DebugManualReset]).
Proof. intros H. unfold async_reset, reset. by rewrite H. Qed.

(** C4. A reset that is not suppressed by [manual_reset_only], from the
    time trigger or from the service, sets [min_value] and [max_value] to
    the current [last] (whatever it is, [None] included), clears the three
    entity ids and writes the state to the host. *)
Theorem C4_executed_reset_restarts_from_last s :
  _manual_reset_only s = false →
  let s' := (reset s).1 in
  min_value s' = last s ∧ max_value s' = last s ∧ last s' = last s ∧
  min_entity_id s' = None ∧ max_entity_id s' = None ∧
  last_entity_id s' = None ∧
  states s' = states s ∧
  WriteHaState ∈ (reset s).2 ∧
  (async_reset s).1 = s' ∧ WriteHaState ∈ (async_reset s).2.
Proof.
  intros H. unfold async_reset, reset. rewrite H. simpl.
  repeat split; try done; set_solver.
Qed.

(** ** Order of the extrema *)

Lemma record_unit_nan_free ns s : nan_free s → nan_free (record_unit ns s).
Proof.
  unfold nan_free.
  by rewrite record_unit_states, record_unit_min_value, record_unit_max_value,
    record_unit_last.
Qed.

Lemma set_state_unknown_nan_free e s :
  nan_free s → nan_free (set_state e Unknown s).
Proof.
  intros [Hst Hval]. split; [|done]. intros e' v. simpl.
  destruct (decide (e = e')) as [->|Hne].
  - by rewrite lookup_insert_eq.
  - rewrite lookup_insert_ne by done. apply Hst.
Qed.

Lemma store_reading_nan_free e r s :
  is_nan r = false → nan_free s →
  nan_free (set_last (Some e) (Some r) (set_state e (Num r) s)).
Proof.
  intros Hr [Hst Hval]. split; simpl.
  - intros e' v. destruct (decide (e = e')) as [->|Hne].
    + rewrite lookup_insert_eq. by intros [= <-].
    + rewrite lookup_insert_ne by done. apply Hst.
  - intros v [Hv|[Hv|Hv]]; [apply Hval; by left|apply Hval; right; by left|].
    by injection Hv as <-.
Qed.

(** Ingesting a reading that does not round to [nan] brings no [nan] into
    the entity. *)
Lemma listener_nan_free ev s :
  nan_free s →
  rounds_to_nan float_of_string py_round (_round_digits s) ev = false →
  nan_free (listen ev s).1.
Proof.
  intros Hnf Hev. unfold rounds_to_nan in Hev.
  listener_cases ev; simpl in Hev; rewrite ?Emarker, ?Efloat in Hev.
  - by apply calc_values_nan_free, set_state_unknown_nan_free.
  - by apply (record_unit_nan_free ns) in Hnf.
  - apply calc_values_nan_free, store_reading_nan_free;
      [|by apply record_unit_nan_free].
    by rewrite record_unit_round_digits.
  - by apply record_unit_nan_free.
  - by apply calc_values_nan_free, set_state_unknown_nan_free.
Qed.

Lemma listener_ordered ev s :
  nan_free s →
  rounds_to_nan float_of_string py_round (_round_digits s) ev = false →
  extrema_ordered s → extrema_ordered (listen ev s).1.
Proof.
  intros Hnf Hev Hord. unfold rounds_to_nan in Hev.
  listener_cases ev; simpl in Hev; rewrite ?Emarker, ?Efloat in Hev.
  - by apply calc_values_ordered; [apply set_state_unknown_nan_free|].
  - intros a b. simpl. rewrite record_unit_min_value, record_unit_max_value.
    apply Hord.
  - apply calc_values_ordered.
    + apply store_reading_nan_free; [|by apply record_unit_nan_free].
      by rewrite record_unit_round_digits.
    + intros a b. simpl.
      rewrite record_unit_min_value, record_unit_max_value. apply Hord.
  - intros a b. rewrite record_unit_min_value, record_unit_max_value.
    apply Hord.
  - by apply calc_values_ordered; [apply set_state_unknown_nan_free|].
Qed.

Lemma reset_nan_free s : nan_free s → nan_free (reset s).1.
Proof.
  intros [Hst Hval]. unfold reset. destruct (_manual_reset_only s); [done|].
  split; [done|]. simpl. intros v [Hv|[Hv|Hv]]; apply Hval; by repeat right.
Qed.

Lemma reset_keeps_ordered s :
  nan_free s → extrema_ordered s → extrema_ordered (reset s).1.
Proof.
  intros [_ Hval] Hord. unfold reset. destruct (_manual_reset_only s); [done|].
  intros a b. simpl. intros Ha Hb. rewrite Ha in Hb. injection Hb as <-.
  apply fle_refl, Hval. by repeat right.
Qed.

(** An executed reset orders the extrema whatever they were. *)
Lemma executed_reset_ordered s :
  nan_free s → _manual_reset_only s = false → extrema_ordered (reset s).1.
Proof.
  intros [_ Hval] Hm. unfold reset. rewrite Hm.
  intros a b. simpl. intros Ha Hb. rewrite Ha in Hb. injection Hb as <-.
  apply fle_refl, Hval. by repeat right.
Qed.

Lemma async_reset_state s : (async_reset s).1 = (reset s).1.
Proof. unfold async_reset. by destruct (reset s). Qed.

Lemma calc_values_round_digits s : _round_digits (_calc_values s) = _round_digits s.
Proof. calc_frame. Qed.

Lemma added_to_hass_round_digits last_state s :
  _round_digits (added_to_hass last_state s).1 = _round_digits s.
Proof.
  unfold added_to_hass, async_added_to_hass. simpl.
  rewrite calc_values_round_digits. destruct last_state as [attributes|]; [|done].
  unfold restore_ids, restore_last, restore_max, restore_min.
  simpl. by repeat case_match.
Qed.

(** No operation changes the rounding: the digits the listener rounds to
    are those of the configuration. *)
Lemma step_round_digits o s : _round_digits (do_step o s).1 = _round_digits s.
Proof.
  destruct o as [ev| | | |last_state|]; simpl.
  - listener_cases ev; rewrite ?calc_values_round_digits; simpl;
      by rewrite ?record_unit_round_digits.
  - apply calc_values_round_digits.
  - unfold reset. by destruct (_manual_reset_only s).
  - rewrite async_reset_state. unfold reset. by destruct (_manual_reset_only s).
  - apply added_to_hass_round_digits.
  - unfold native_value. by repeat case_match.
Qed.

Lemma step_ordered o s :
  is_restore o = false →
  no_nan_reading float_of_string py_round (_round_digits s) [o] →
  nan_free s ∧ extrema_ordered s →
  nan_free (do_step o s).1 ∧ extrema_ordered (do_step o s).1.
Proof.
  intros Hr Hev [Hnf Hord]. destruct o as [ev| | | |last_state|]; simpl; try done.
  - assert (Hev' : rounds_to_nan float_of_string py_round (_round_digits s) ev = false)
      by (apply Hev; by left).
    split; [by apply listener_nan_free|by apply listener_ordered].
  - split; [by apply calc_values_nan_free|by apply calc_values_ordered].
  - split; [by apply reset_nan_free|by apply reset_keeps_ordered].
  - rewrite async_reset_state.
    split; [by apply reset_nan_free|by apply reset_keeps_ordered].
  - unfold native_value. by repeat case_match.
Qed.

Lemma no_nan_reading_cons rd o ops :
  no_nan_reading float_of_string py_round rd (o :: ops) →
  no_nan_reading float_of_string py_round rd [o] ∧
  no_nan_reading float_of_string py_round rd ops.
Proof.
  intros H. split; intros ev Hin; apply H; destruct o; simpl in *;
    try done; try (by right); try (by apply elem_of_nil in Hin).
  apply list_elem_of_singleton in Hin as ->. by left.
Qed.

Lemma run_ordered ops : ∀ s,
  existsb is_restore ops = false →
  no_nan_reading float_of_string py_round (_round_digits s) ops →
  nan_free s ∧ extrema_ordered s →
  nan_free (exec ops s) ∧ extrema_ordered (exec ops s).
Proof.
  induction ops as [|o rest IH]; intros s Hr Hev Hs; [done|].
  simpl in Hr. apply orb_false_iff in Hr as [Ho Hrest].
  apply no_nan_reading_cons in Hev as [Hev Hevs].
  cbn [run]. apply IH; [done| |by apply step_ordered].
  by rewrite step_round_digits.
Qed.

(** What [async_added_to_hass] leaves on a freshly constructed entity:
    each of the three numbers is read from its own attribute. *)
Lemma added_to_hass_init ids ty rd mro attributes :
  (added_to_hass (Some attributes) (init ids ty rd mro)).1 =
  mkSensor ids ty rd mro None false true
    (float_of_attr float_of_string (attributes !! ATTR_MIN_VALUE))
    (float_of_attr float_of_string (attributes !! ATTR_MAX_VALUE))
    (float_of_attr float_of_string (attributes !! ATTR_LAST))
    (id_of_attr (attributes !! ATTR_MIN_ENTITY_ID))
    (id_of_attr (attributes !! ATTR_MAX_ENTITY_ID))
    (id_of_attr (attributes !! ATTR_LAST_ENTITY_ID))
    (length ids) ∅.
Proof.
  unfold async_added_to_hass. simpl. rewrite calc_values_no_number.
  - unfold restore_ids, restore_last, restore_max, restore_min. simpl.
    by repeat case_match.
  - intros e v _. unfold restore_ids, restore_last, restore_max, restore_min.
    simpl. repeat case_match; simpl; by rewrite lookup_empty.
Qed.

Lemma added_to_hass_nothing_stored ids ty rd mro :
  (added_to_hass None (init ids ty rd mro)).1 = init ids ty rd mro.
Proof.
  unfold async_added_to_hass. simpl. apply calc_values_no_number.
  intros e v _. simpl. by rewrite lookup_empty.
Qed.

(** C3, as amended. On an entity constructed, attached to the host with a
    stored snapshot that is absent or does not itself put [min_value]
    above [max_value] and holds no [nan], and then driven by any sequence
    of ingestions of readings that are not [nan], recomputations, resets
    and reads, [min_value <= max_value] holds whenever both are set. *)
Theorem C3_extrema_ordered_when_snapshot_ordered ids ty rd mro last_state ops :
  snapshot_ordered float_of_string last_state →
  snapshot_not_nan float_of_string last_state →
  existsb is_restore ops = false →
  no_nan_reading float_of_string py_round rd ops →
  extrema_ordered
    (exec ops (added_to_hass last_state (init ids ty rd mro)).1).
Proof.
  intros Hsnap Hnan Hops Hev. apply run_ordered; [done| |].
  - by rewrite added_to_hass_round_digits.
  - destruct last_state as [attributes|].
    + rewrite added_to_hass_init. split; [split|]; simpl.
      * intros e v. by rewrite lookup_empty.
      * intros v [Hv|[Hv|Hv]];
          [apply (Hnan ATTR_MIN_VALUE)|apply (Hnan ATTR_MAX_VALUE)
          |apply (Hnan ATTR_LAST)]; try done; by repeat first [left|right].
      * intros a b. apply Hsnap.
    + rewrite added_to_hass_nothing_stored. split; [split|]; simpl.
      * intros e v. by rewrite lookup_empty.
      * by intros v [?|[?|?]].
      * done.
Qed.

(** ** Stored numbers and the running extrema *)

Lemma within_extrema_init ids ty rd mro : within_extrema (init ids ty rd mro).
Proof. intros e v _. simpl. by rewrite lookup_empty. Qed.

(** Ingestion of a reading that is not [nan] keeps the stored numbers
    between the extrema: only a reset, a restore or a [nan] can leave a
    stored number outside them. *)
Lemma listener_within ev s :
  nan_free s →
  rounds_to_nan float_of_string py_round (_round_digits s) ev = false →
  within_extrema s → within_extrema (listen ev s).1.
Proof.
  intros Hnf Hev Hw. unfold rounds_to_nan in Hev.
  listener_cases ev; simpl in Hev; rewrite ?Emarker, ?Efloat in Hev.
  - by apply calc_values_within, set_state_unknown_nan_free.
  - intros e v. simpl.
    rewrite record_unit_entity_ids, record_unit_states,
      record_unit_min_value, record_unit_max_value. apply Hw.
  - apply calc_values_within, store_reading_nan_free;
      [|by apply record_unit_nan_free].
    by rewrite record_unit_round_digits.
  - intros e v.
    rewrite record_unit_entity_ids, record_unit_states,
      record_unit_min_value, record_unit_max_value. apply Hw.
  - by apply calc_values_within, set_state_unknown_nan_free.
Qed.

(** A reading processed as a number, on an entity whose stored numbers lie
    between the extrema: strictly beyond an extremum it takes it over,
    equal to it it changes nothing. *)
Lemma numeric_reading_extrema s ev ns x :
  new_state ev = Some ns →
  is_marker (state ns) = false →
  _unit_of_measurement (record_unit ns s) = unit_of_measurement ns →
  float_of_string (state ns) = Some x →
  within_extrema s →
  ev_entity_id ev ∈ _entity_ids s →
  let r := py_round x (_round_digits s) in
  let s' := (listen ev s).1 in
  (∀ m, min_value s = Some m →
     ((r < m)%F →
        min_value s' = Some r ∧ min_entity_id s' = Some (ev_entity_id ev)) ∧
     ((r == m)%F →
        min_value s' = min_value s ∧ min_entity_id s' = min_entity_id s)) ∧
  (∀ M, max_value s = Some M →
     ((M < r)%F →
        max_value s' = Some r ∧ max_entity_id s' = Some (ev_entity_id ev)) ∧
     ((r == M)%F →
        max_value s' = max_value s ∧ max_entity_id s' = max_entity_id s)).
Proof.
  intros Hns Hmarker Hunit Hfloat Hw He r s'. subst s'.
  rewrite (listener_numeric ev s ns x Hns Hmarker Hunit Hfloat). simpl.
  fold r. set (e := ev_entity_id ev) in *.
  set (s1 := set_last (Some e) (Some r) (set_state e (Num r) (record_unit ns s))).
  assert (Hids : _entity_ids s1 = _entity_ids s)
    by (simpl; apply record_unit_entity_ids).
  assert (Hself : states s1 !! e = Some (Num r))
    by (simpl; apply lookup_insert_eq).
  assert (Hother : ∀ e' v, e' ≠ e →
            states s1 !! e' = Some (Num v) → states s !! e' = Some (Num v)).
  { intros e' v Hne. simpl.
    rewrite lookup_insert_ne by done. by rewrite record_unit_states. }
  split.
  - intros m Hm.
    assert (Hm1 : min_value s1 = Some m)
      by (simpl; by rewrite record_unit_min_value).
    split; intros Hrm.
    + apply (calc_values_new_min s1 e r m); try done; [by rewrite Hids|].
      intros e' v He' Hne Hv. rewrite Hids in He'.
      destruct (Hw e' v He' (Hother _ _ Hne Hv)) as [(m' & Hm' & Hle) _].
      congruence.
    + destruct (calc_values_min_kept s1 m Hm1) as [-> ->].
      * intros e' v He' Hv. rewrite Hids in He'.
        destruct (decide (e' = e)) as [->|Hne].
        -- rewrite Hself in Hv. injection Hv as <-. by apply feq_fle in Hrm as [_ ?].
        -- destruct (Hw e' v He' (Hother _ _ Hne Hv)) as [(m' & Hm' & Hle) _].
           congruence.
      * simpl. by rewrite record_unit_min_entity_id.
  - intros M HM.
    assert (HM1 : max_value s1 = Some M)
      by (simpl; by rewrite record_unit_max_value).
    split; intros HrM.
    + apply (calc_values_new_max s1 e r M); try done; [by rewrite Hids|].
      intros e' v He' Hne Hv. rewrite Hids in He'.
      destruct (Hw e' v He' (Hother _ _ Hne Hv)) as [_ (M' & HM' & Hle)].
      congruence.
    + destruct (calc_values_max_kept s1 M HM1) as [-> ->].
      * intros e' v He' Hv. rewrite Hids in He'.
        destruct (decide (e' = e)) as [->|Hne].
        -- rewrite Hself in Hv. injection Hv as <-. by apply feq_fle in HrM as [? _].
        -- destruct (Hw e' v He' (Hother _ _ Hne Hv)) as [_ (M' & HM' & Hle)].
           congruence.
      * simpl. by rewrite record_unit_max_entity_id.
Qed.

(** C5, as amended. On an entity whose stored numbers all lie between the
    running extrema (they were all merged since the last reset, and none
    of them is [nan]), a reading of a tracked entity that is processed as a number and whose rounded value is
    strictly below [min_value] becomes [min_value], with its entity as
    [min_entity_id]; one whose rounded value equals [min_value] leaves
    [min_value] and [min_entity_id] as they were.  The same for
    [max_value] with strictly above. *)
Theorem C5_strict_reading_takes_extremum_equal_keeps s ev ns x :
  new_state ev = Some ns →
  is_marker (state ns) = false →
  _unit_of_measurement (record_unit ns s) = unit_of_measurement ns →
  float_of_string (state ns) = Some x →
  within_extrema s →
  ev_entity_id ev ∈ _entity_ids s →
  let r := py_round x (_round_digits s) in
  let s' := (listen ev s).1 in
  (∀ m, min_value s = Some m →
     ((r < m)%F →
        min_value s' = Some r ∧ min_entity_id s' = Some (ev_entity_id ev)) ∧
     ((r == m)%F →
        min_value s' = min_value s ∧ min_entity_id s' = min_entity_id s)) ∧
  (∀ M, max_value s = Some M →
     ((M < r)%F →
        max_value s' = Some r ∧ max_entity_id s' = Some (ev_entity_id ev)) ∧
     ((r == M)%F →
        max_value s' = max_value s ∧ max_entity_id s' = max_entity_id s)).
Proof. apply numeric_reading_extrema. Qed.

(** ** Marker readings *)

Lemma set_state_unknown_within e s :
  within_extrema s → within_extrema (set_state e Unknown s).
Proof.
  intros Hw e' v He'. simpl. intros Hv.
  destruct (decide (e = e')) as [->|Hne].
  - by rewrite lookup_insert_eq in Hv.
  - rewrite lookup_insert_ne in Hv by done. by apply (Hw e' v).
Qed.

(** C6, as amended. A marker reading ([unknown], [unavailable] or no new
    state at all) for any entity stores [Unknown] for it, leaves [last]
    and [last_entity_id] as they were, runs the recomputation and writes
    the state.  The recomputation never unsets or loosens an extremum: each
    is kept or tightened from the numbers stored for the other entities,
    and both are left exactly as they were, with their entity ids, when
    the stored numbers lie between them. *)
Theorem C6_marker_reading_keeps_or_tightens ev s :
  is_marker_event ev = true →
  let e := ev_entity_id ev in
  let res := listen ev s in
  res = (_calc_values (set_state e Unknown s), [WriteHaState]) ∧
  states res.1 = <[e := Unknown]> (states s) ∧
  same_last s res.1 ∧
  min_step (min_value s) (min_value res.1) ∧
  max_step (max_value s) (max_value res.1) ∧
  (within_extrema s → same_extrema s res.1).
Proof.
  intros Hev e res. subst res. rewrite (listener_marker ev s Hev). simpl.
  fold e. split_and!.
  - done.
  - by rewrite calc_values_states.
  - split; [by rewrite calc_values_last|by rewrite calc_values_last_entity_id].
  - apply (calc_values_min_step (set_state e Unknown s)).
  - apply (calc_values_max_step (set_state e Unknown s)).
  - intros Hw. by apply (calc_values_within_kept (set_state e Unknown s)),
      set_state_unknown_within.
Qed.

(** ** Readings that are no number *)

(** C7, as amended. A reading that is not a marker and whose payload is no
    number leaves [states], [last], the extrema and the entity ids as they
    were and writes no state; one warning is logged.  The unit fields are
    not part of that.  When no unit was recorded, the reading's unit
    annotation is recorded, the flags stay as they were and the
    non-numeric warning is logged.  When a unit was recorded and the
    reading's annotation differs from it, the mismatch flag is set, the
    entity is marked unavailable, the recorded unit stays and the mismatch
    warning is logged instead of the non-numeric one.  When the reading's
    unit is the one already recorded the entity is left exactly as it
    was. *)
Theorem C7_unparsable_reading_keeps_values ev s ns :
  new_state ev = Some ns →
  is_marker (state ns) = false →
  float_of_string (state ns) = None →
  let res := listen ev s in
  states res.1 = states s ∧ same_last s res.1 ∧ same_extrema s res.1 ∧
  (WriteHaState ∉ res.2) ∧
  (res.2 = [WarnNonNumeric (ev_entity_id ev)] ∨ res.2 = [WarnUnitMismatch]) ∧
  (_unit_of_measurement s = unit_of_measurement ns →
     res = (s, [WarnNonNumeric (ev_entity_id ev)])) ∧
  (_unit_of_measurement s = None →
     res = (set_unit (unit_of_measurement ns) s,
            [WarnNonNumeric (ev_entity_id ev)]) ∧
     _unit_of_measurement res.1 = unit_of_measurement ns ∧
     _unit_of_measurement_mismatch res.1 = _unit_of_measurement_mismatch s ∧
     _attr_available res.1 = _attr_available s) ∧
  (∀ u, _unit_of_measurement s = Some u →
     unit_of_measurement ns ≠ Some u →
     res = (set_available false (set_mismatch true s), [WarnUnitMismatch]) ∧
     _unit_of_measurement res.1 = Some u ∧
     _unit_of_measurement_mismatch res.1 = true ∧
     _attr_available res.1 = false) ∧
  (∀ u, _unit_of_measurement s = Some u →
     unit_of_measurement ns = Some u →
     _unit_of_measurement res.1 = Some u ∧
     _unit_of_measurement_mismatch res.1 = _unit_of_measurement_mismatch s ∧
     _attr_available res.1 = _attr_available s).
Proof.
  intros Hns Hmarker Hfloat res.
  assert (Hframe : states res.1 = states s ∧ same_last s res.1 ∧
            same_extrema s res.1 ∧ (WriteHaState ∉ res.2) ∧
            (res.2 = [WarnNonNumeric (ev_entity_id ev)] ∨
             res.2 = [WarnUnitMismatch]) ∧
            (_unit_of_measurement s = unit_of_measurement ns →
               res = (s, [WarnNonNumeric (ev_entity_id ev)]))).
  { subst res. unfold _async_sensor_state_listener.
    rewrite Hns, Hmarker, Hfloat.
    case_bool_decide as Hunit; simpl; unfold same_last, same_extrema; simpl;
      rewrite record_unit_states, record_unit_last, record_unit_last_entity_id,
        record_unit_min_value, record_unit_min_entity_id,
        record_unit_max_value, record_unit_max_entity_id.
    - split_and!; try done.
      + by intros [=]%list_elem_of_singleton.
      + by right.
      + intros Hsame. by rewrite (record_unit_same ns s Hsame) in Hunit.
    - split_and!; try done.
      + by intros [=]%list_elem_of_singleton.
      + by left.
      + intros Hsame. by rewrite (record_unit_same ns s Hsame). }
  destruct Hframe as (Hst & Hlast & Hext & Hwrite & Hwarn & Hsame).
  split_and!; try done.
  - intros Hnone.
    assert (Hres : res = (set_unit (unit_of_measurement ns) s,
                          [WarnNonNumeric (ev_entity_id ev)])).
    { subst res. unfold _async_sensor_state_listener, record_unit.
      rewrite Hns, Hmarker, Hfloat, Hnone. simpl.
      by rewrite bool_decide_eq_false_2 by (by intros []). }
    by rewrite Hres.
  - intros u Hu Hdiff.
    assert (Hres : res = (set_available false (set_mismatch true s),
                          [WarnUnitMismatch])).
    { subst res. unfold _async_sensor_state_listener.
      rewrite Hns, Hmarker, (record_unit_recorded ns s u Hu).
      rewrite bool_decide_eq_true_2; [done|]. rewrite Hu. congruence. }
    by rewrite Hres.
  - intros u Hu Heq. rewrite Hsame by congruence. by simpl.
Qed.

(** ** Restore *)

(** C8. On the entity as constructed, [async_added_to_hass] reads
    [min_value], [max_value] and [last] each from its own stored attribute,
    whatever the other two are: a field whose attribute is missing stays
    unset, one stored as a number gets that number, one stored as a string
    gets what [float] parses from it and stays unset when that is no
    number.  For the stored attributes [min_value = "2.5"],
    [max_value = "bad"] and last value ["4.0"] this gives
    [min_value = 2.5], [max_value] unset and [last = 4.0]; with
    [max_value] missing and the last value stored as the number 4 it gives
    [min_value = 2.5], [max_value] unset and [last = 4]. *)
Theorem C8_restore_reads_each_field_independently ids ty rd mro :
  float_of_string "2.5" = Some (Fin (5 # 2)) →
  float_of_string "bad" = None →
  float_of_string "4.0" = Some (Fin 4) →
  (∀ attributes,
     let s' := (added_to_hass (Some attributes) (init ids ty rd mro)).1 in
     ∀ key field,
       (key, field) ∈ [(ATTR_MIN_VALUE, min_value s');
                       (ATTR_MAX_VALUE, max_value s');
                       (ATTR_LAST, last s')] →
       (attributes !! key = None → field = None) ∧
       (∀ x, attributes !! key = Some (AttrNum x) → field = Some x) ∧
       (∀ str, attributes !! key = Some (AttrStr str) →
          field = float_of_string str)) ∧
  (let s' := (added_to_hass (Some scenario_snapshot) (init ids ty rd mro)).1 in
   min_value s' = Some (Fin (5 # 2)) ∧ max_value s' = None ∧
   last s' = Some (Fin 4)) ∧
  (let s' := (added_to_hass (Some partial_snapshot) (init ids ty rd mro)).1 in
   min_value s' = Some (Fin (5 # 2)) ∧ max_value s' = None ∧
   last s' = Some (Fin 4)).
Proof.
  intros Hmin Hmax Hlast. split_and!.
  - intros attributes. cbv zeta. rewrite added_to_hass_init. simpl.
    intros key field Hin.
    repeat (apply elem_of_cons in Hin as [[= -> ->]|Hin]);
      [| | |by apply elem_of_nil in Hin];
      (split_and!; [intros ->|intros x ->|intros str ->]; done).
  - cbv zeta. rewrite added_to_hass_init. simpl.
    unfold scenario_snapshot.
    replace (_ !! ATTR_MIN_VALUE) with (Some (AttrStr "2.5")) by (by vm_compute).
    replace (_ !! ATTR_MAX_VALUE) with (Some (AttrStr "bad")) by (by vm_compute).
    replace (_ !! ATTR_LAST) with (Some (AttrStr "4.0")) by (by vm_compute).
    simpl. by rewrite Hmin, Hmax, Hlast.
  - cbv zeta. rewrite added_to_hass_init. simpl.
    unfold partial_snapshot.
    replace (_ !! ATTR_MIN_VALUE) with (Some (AttrStr "2.5")) by (by vm_compute).
    replace (_ !! ATTR_MAX_VALUE) with (@None attr) by (by vm_compute).
    replace (_ !! ATTR_LAST) with (Some (AttrNum (Fin 4))) by (by vm_compute).
    simpl. by rewrite Hmin.
Qed.

(** ** Unit mismatch *)

Lemma calc_values_mismatched s :
  unit_mismatched s → unit_mismatched (_calc_values s).
Proof.
  unfold unit_mismatched. by rewrite calc_values_mismatch, calc_values_available.
Qed.

Lemma listener_mismatched ev s :
  unit_mismatched s → unit_mismatched (listen ev s).1.
Proof.
  intros [Hm Ha]. listener_cases ev.
  - by apply calc_values_mismatched.
  - done.
  - apply calc_values_mismatched. split; simpl;
      [by rewrite record_unit_mismatch|by rewrite record_unit_available].
  - split; [by rewrite record_unit_mismatch|by rewrite record_unit_available].
  - by apply calc_values_mismatched.
Qed.

Lemma step_mismatched o s :
  unit_mismatched s → unit_mismatched (do_step o s).1.
Proof.
  intros Hmm. destruct o; simpl.
  - by apply listener_mismatched.
  - by apply calc_values_mismatched.
  - unfold reset. by destruct (_manual_reset_only s).
  - unfold async_reset, reset. by destruct (_manual_reset_only s).
  - apply calc_values_mismatched. destruct Hmm as [Hm Ha].
    destruct last_state as [attributes|]; [|done].
    unfold restore_ids, restore_last, restore_max, restore_min.
    split; simpl; by repeat case_match.
  - destruct Hmm as [Hm Ha]. unfold native_value. rewrite Hm. done.
Qed.

Lemma run_mismatched ops : ∀ s,
  unit_mismatched s → unit_mismatched (exec ops s).
Proof.
  induction ops as [|o rest IH]; intros s Hmm; [done|].
  simpl. by apply IH, step_mismatched.
Qed.

(** The unit check of lines 208-212, on a reading that is no marker. *)
Lemma listener_unit_differs ev s ns u :
  new_state ev = Some ns →
  is_marker (state ns) = false →
  _unit_of_measurement s = Some u →
  unit_of_measurement ns ≠ Some u →
  listen ev s = (set_available false (set_mismatch true s), [WarnUnitMismatch]).
Proof.
  intros Hns Hmarker Hu Hdiff. unfold _async_sensor_state_listener.
  rewrite Hns, Hmarker, (record_unit_recorded ns s u Hu).
  rewrite bool_decide_eq_true_2; [done|]. rewrite Hu. congruence.
Qed.

(** C9. A reading (present, not a marker) whose unit differs from the
    recorded one sets the mismatch flag.  No later operation clears it:
    after any sequence of ingestions (with the original unit or any
    other), recomputations, resets, restores and reads, the flag is set,
    the entity is unavailable and [native_value] yields no value. *)
Theorem C9_unit_mismatch_is_permanent s ev ns u ops :
  new_state ev = Some ns →
  is_marker (state ns) = false →
  _unit_of_measurement s = Some u →
  unit_of_measurement ns ≠ Some u →
  let s1 := (listen ev s).1 in
  let s2 := exec ops s1 in
  _unit_of_measurement_mismatch s1 = true ∧
  _unit_of_measurement_mismatch s2 = true ∧
  _attr_available s2 = false ∧
  (native_value s2).2 = None ∧
  _attr_available (native_value s2).1 = false.
Proof.
  intros Hns Hmarker Hu Hdiff s1 s2.
  assert (H1 : unit_mismatched s1).
  { subst s1. by rewrite (listener_unit_differs ev s ns u). }
  assert (H2 : unit_mismatched s2) by by apply run_mismatched.
  destruct H1 as [H1 _]. destruct H2 as [H2 H2'].
  split_and!; try done; unfold native_value; by rewrite H2.
Qed.

(** C10. With the mismatch flag set, a numeric reading that carries the
    recorded unit goes through the whole of the listener: its rounded
    value is stored in [states] and becomes [last], with its entity as
    [last_entity_id]; the recomputation runs on it, keeping or tightening
    the extrema (taking them over when the value is strictly beyond one and
    the stored numbers lie between them); the state is written.  The flag
    stays set and [native_value] still yields no value. *)
Theorem C10_matching_reading_processed_under_mismatch s ev ns u x :
  _unit_of_measurement_mismatch s = true →
  _unit_of_measurement s = Some u →
  new_state ev = Some ns →
  is_marker (state ns) = false →
  unit_of_measurement ns = Some u →
  float_of_string (state ns) = Some x →
  let val := py_round x (_round_digits s) in
  let e := ev_entity_id ev in
  let res := listen ev s in
  res = (_calc_values (set_last (Some e) (Some val) (set_state e (Num val) s)),
         [WriteHaState]) ∧
  states res.1 !! e = Some (Num val) ∧
  last res.1 = Some val ∧ last_entity_id res.1 = Some e ∧
  min_step (min_value s) (min_value res.1) ∧
  max_step (max_value s) (max_value res.1) ∧
  (within_extrema s → e ∈ _entity_ids s →
     (∀ m, min_value s = Some m → (val < m)%F →
        min_value res.1 = Some val ∧ min_entity_id res.1 = Some e) ∧
     (∀ M, max_value s = Some M → (M < val)%F →
        max_value res.1 = Some val ∧ max_entity_id res.1 = Some e)) ∧
  _unit_of_measurement_mismatch res.1 = true ∧
  (native_value res.1).2 = None.
Proof.
  intros Hmm Hu Hns Hmarker Hunit Hfloat val e res.
  assert (Hrec : record_unit ns s = s) by by eapply record_unit_recorded.
  assert (Hunit' : _unit_of_measurement (record_unit ns s) = unit_of_measurement ns)
    by (rewrite Hrec; congruence).
  pose proof (listener_numeric ev s ns x Hns Hmarker Hunit' Hfloat) as Hres.
  simpl in Hres. rewrite Hrec in Hres. fold val e res in Hres.
  assert (Hflag : _unit_of_measurement_mismatch res.1 = true).
  { rewrite Hres. simpl. by rewrite calc_values_mismatch. }
  split_and!.
  - exact Hres.
  - rewrite Hres. simpl. rewrite calc_values_states. simpl.
    apply lookup_insert_eq.
  - rewrite Hres. simpl. by rewrite calc_values_last.
  - rewrite Hres. simpl. by rewrite calc_values_last_entity_id.
  - apply listener_min_step.
  - apply listener_max_step.
  - intros Hw He.
    destruct (numeric_reading_extrema s ev ns x Hns Hmarker Hunit' Hfloat Hw He)
      as [Hmin Hmax].
    split; [intros m Hm; by apply Hmin|intros M HM; by apply Hmax].
  - exact Hflag.
  - unfold native_value. by rewrite Hflag.
Qed.

End Properties.

(** * The scenarios, evaluated *)

Lemma nan_free_init ids ty rd mro : nan_free (init ids ty rd mro).
Proof.
  split; simpl.
  - intros e v. by rewrite lookup_empty.
  - by intros v [?|[?|?]].
Qed.

(** The readings of a given list of operations, checked one by one. *)
Lemma no_nan_reading_forallb float_of_string py_round rd ops :
  forallb (λ ev, negb (rounds_to_nan float_of_string py_round rd ev))
    (ingested ops) = true →
  no_nan_reading float_of_string py_round rd ops.
Proof.
  intros H ev Hin. rewrite forallb_forall in H.
  apply negb_true_iff, H. by apply list_elem_of_In.
Qed.

Lemma two_readings_nan_free mro : nan_free (two_readings mro).
Proof.
  apply listener_nan_free; [|done].
  apply listener_nan_free; [|done]. apply nan_free_init.
Qed.

Lemma two_readings_within : within_extrema (two_readings false).
Proof.
  apply listener_within; [|done|].
  - apply listener_nan_free; [apply nan_free_init|done].
  - apply listener_within; [apply nan_free_init|done|apply within_extrema_init].
Qed.

Lemma mismatched_sensor_within : within_extrema mismatched_sensor.
Proof.
  apply listener_within; [apply two_readings_nan_free|done|].
  apply two_readings_within.
Qed.

Lemma ordered_snapshot_not_nan :
  snapshot_not_nan decimal_of_string (Some ordered_snapshot).
Proof.
  intros key v Hin Hv.
  repeat (apply elem_of_cons in Hin as [->|Hin]);
    [| | |by apply elem_of_nil in Hin]; vm_compute in Hv; by simplify_eq.
Qed.

(** C1. With [manual_reset_only] set, the service handler [async_reset]
    goes through [reset], which returns at its guard: the entity is left as
    it was (here [min_value] 3 held by [B], [max_value] 10, [last] 10) and
    no state is written, exactly as for the time trigger. *)
Theorem C1_manual_reset_is_suppressed_too :
  _manual_reset_only manual_only_sensor = true ∧
  min_value manual_only_sensor = Some (Fin 3) ∧
  min_entity_id manual_only_sensor = Some "B" ∧
  max_value manual_only_sensor = Some (Fin 10) ∧
  last manual_only_sensor = Some (Fin 10) ∧
  reset manual_only_sensor = (manual_only_sensor, []) ∧
  async_reset manual_only_sensor = (manual_only_sensor, [DebugManualReset]).
Proof.
  assert (Hflag : _manual_reset_only manual_only_sensor = true) by by vm_compute.
  destruct (reset_manual_only _ Hflag) as [Hreset Hasync].
  split_and!; try done; by vm_compute.
Qed.

(** C3 as stated fails: a stored snapshot with [min_value] 5 and
    [max_value] 2 is restored field by field as it is. *)
Lemma C3_counterexample :
  ¬ extrema_ordered
      (sample_run [Restore (Some inverted_snapshot)] (init ["A"; "B"] "min" 2 false)).
Proof.
  intros H. specialize (H (Fin 5) (Fin 2) eq_refl eq_refl). by vm_compute in H.
Qed.

(** C5 as stated fails: [float] accepts [nan], and no comparison with
    [nan] holds.  On [nan_stored] nothing was reset, so every stored number
    was ingested in the current window; [min_value] is 5, held by [A],
    whose stored number is now [nan].  The reading 3 of [B] is strictly
    below 5, yet the scan of [_calc_min] starts from the [nan] of [A] and
    never leaves it, and the merge keeps 5 and [A]. *)
Lemma C5_counterexample :
  min_value nan_stored = Some (Fin 5) ∧
  min_entity_id nan_stored = Some "A" ∧
  states nan_stored !! "A" = Some (Num NaN) ∧
  "B" ∈ _entity_ids nan_stored ∧
  decimal_of_string "3" = Some (Fin 3) ∧
  round_decimal (Fin 3) (_round_digits nan_stored) = Fin 3 ∧
  (Fin 3 < Fin 5)%F ∧
  _calc_min [("A", Num NaN); ("B", Num (Fin 3))] = (Some "A", Some NaN) ∧
  min_value (sample_listener (reading "B" "3") nan_stored).1 = Some (Fin 5) ∧
  min_entity_id (sample_listener (reading "B" "3") nan_stored).1 = Some "A".
Proof. split_and!; try by vm_compute. right; left. Qed.

(** C6 as stated fails: after the reset the extrema are both 10 and [B]
    still has 3 stored; a marker reading for [A] runs the recomputation,
    which takes 3 from [B] as the new minimum. *)
Lemma C6_counterexample :
  is_marker_event (reading "A" "unavailable") = true ∧
  min_value after_reset = Some (Fin 10) ∧
  min_entity_id after_reset = None ∧
  min_value (sample_listener (reading "A" "unavailable") after_reset).1 = Some (Fin 3) ∧
  min_entity_id (sample_listener (reading "A" "unavailable") after_reset).1 = Some "B" ∧
  ¬ same_extrema after_reset
      (sample_listener (reading "A" "unavailable") after_reset).1.
Proof.
  split_and!; [by vm_compute..|].
  intros [H _]. by vm_compute in H.
Qed.

(** C7 as stated fails: the first reading records its unit before its
    payload is parsed, so a payload that is no number still changes the
    entity. *)
Lemma C7_counterexample :
  decimal_of_string "abc" = None ∧
  is_marker "abc" = false ∧
  (sample_listener (reading "A" "abc") (init ["A"; "B"] "min" 2 false)).1
    ≠ init ["A"; "B"] "min" 2 false.
Proof.
  split_and!; [by vm_compute..|].
  intros H%(f_equal _unit_of_measurement). by vm_compute in H.
Qed.

(** ** The theorems at concrete inputs *)

Lemma C2_witness :
  forallb (valid_numeric decimal_of_string)
    ([reading "A" "10"] ++ reading "B" "3" :: [reading "A" "12.5"]) = true ∧
  let s1 := sample_run (Ingest <$> [reading "A" "10"]) (init ["A"; "B"] "min" 2 false) in
  let s2 := (sample_listener (reading "B" "3") s1).1 in
  let s3 := sample_run (Ingest <$> [reading "A" "12.5"]) s2 in
  min_step (min_value s1) (min_value s2) ∧
  max_step (max_value s1) (max_value s2) ∧
  min_non_increasing (min_value s1) (min_value s3) ∧
  max_non_decreasing (max_value s1) (max_value s3).
Proof.
  split; [reflexivity|].
  apply (C2_extrema_tighten_between_resets decimal_of_string round_decimal
           (init ["A"; "B"] "min" 2 false)
           [reading "A" "10"] (reading "B" "3") [reading "A" "12.5"]).
  reflexivity.
Defined.

Lemma C3_witness :
  snapshot_ordered decimal_of_string (Some ordered_snapshot) ∧
  snapshot_not_nan decimal_of_string (Some ordered_snapshot) ∧
  extrema_ordered
    (sample_run
       [Ingest (reading "A" "10"); TimeReset; Ingest (reading "B" "3");
        ManualReset; Recompute; ReadNativeValue]
       (async_added_to_hass decimal_of_string (Some ordered_snapshot)
          (init ["A"; "B"] "min" 2 false)).1).
Proof.
  assert (Hsnap : snapshot_ordered decimal_of_string (Some ordered_snapshot)).
  { intros a b Ha Hb. vm_compute in Ha, Hb.
    injection Ha as <-. injection Hb as <-. by vm_compute. }
  split_and!; [exact Hsnap|exact ordered_snapshot_not_nan|].
  apply (C3_extrema_ordered_when_snapshot_ordered decimal_of_string round_decimal);
    [exact Hsnap|exact ordered_snapshot_not_nan|reflexivity|].
  by apply no_nan_reading_forallb.
Defined.

Lemma C4_witness :
  _manual_reset_only (two_readings false) = false ∧
  min_value (reset (two_readings false)).1 = Some (Fin 10) ∧
  max_value (reset (two_readings false)).1 = Some (Fin 10) ∧
  min_entity_id (reset (two_readings false)).1 = None.
Proof.
  destruct (C4_executed_reset_restarts_from_last (two_readings false) eq_refl)
    as (Hmin & Hmax & _ & Hid & _).
  split_and!; [reflexivity|exact Hmin|exact Hmax|exact Hid].
Defined.

Lemma C5_witness :
  within_extrema (two_readings false) ∧
  min_value (two_readings false) = Some (Fin 3) ∧
  min_value (sample_listener (reading "B" "1") (two_readings false)).1 = Some (Fin 1) ∧
  min_entity_id (sample_listener (reading "B" "1") (two_readings false)).1 = Some "B".
Proof.
  assert (Htracked : "B" ∈ _entity_ids (two_readings false))
    by (right; left).
  destruct (C5_strict_reading_takes_extremum_equal_keeps
              decimal_of_string round_decimal
              (two_readings false) (reading "B" "1") _ (Fin 1)
              eq_refl eq_refl eq_refl eq_refl two_readings_within Htracked)
    as [Hmin _].
  destruct (Hmin (Fin 3) eq_refl) as [Hlt _].
  destruct (Hlt eq_refl) as [Hv Hid].
  split_and!; [exact two_readings_within|reflexivity|exact Hv|exact Hid].
Defined.

Lemma C6_witness :
  is_marker_event (reading "A" "unknown") = true ∧
  states (sample_listener (reading "A" "unknown") (two_readings false)).1 !! "A"
    = Some Unknown ∧
  same_extrema (two_readings false)
    (sample_listener (reading "A" "unknown") (two_readings false)).1.
Proof.
  destruct (C6_marker_reading_keeps_or_tightens decimal_of_string round_decimal
              (reading "A" "unknown") (two_readings false) eq_refl)
    as (_ & Hst & _ & _ & _ & Hsame).
  split_and!; [reflexivity| |exact (Hsame two_readings_within)].
  unfold sample_listener. rewrite Hst. apply lookup_insert_eq.
Defined.

Lemma C7_witness :
  decimal_of_string "abc" = None ∧
  same_extrema (two_readings false)
    (sample_listener (reading "B" "abc") (two_readings false)).1 ∧
  sample_listener (reading "B" "abc") (two_readings false)
    = (two_readings false, [WarnNonNumeric "B"]).
Proof.
  destruct (C7_unparsable_reading_keeps_values decimal_of_string round_decimal
              (reading "B" "abc") (two_readings false) _ eq_refl eq_refl eq_refl)
    as (_ & _ & Hsame & _ & _ & Hall & _).
  split_and!; [reflexivity|exact Hsame|exact (Hall eq_refl)].
Defined.

Lemma C8_witness :
  decimal_of_string "2.5" = Some (Fin (5 # 2)) ∧
  decimal_of_string "bad" = None ∧
  decimal_of_string "4.0" = Some (Fin 4) ∧
  let s' := (async_added_to_hass decimal_of_string (Some scenario_snapshot)
               (init ["A"; "B"] "min" 2 false)).1 in
  min_value s' = Some (Fin (5 # 2)) ∧ max_value s' = None ∧ last s' = Some (Fin 4).
Proof.
  split_and!; [reflexivity..|].
  apply (C8_restore_reads_each_field_independently decimal_of_string
           ["A"; "B"] "min" 2 false eq_refl eq_refl eq_refl).
Defined.

Lemma C9_witness :
  _unit_of_measurement (two_readings false) = Some "kWh" ∧
  let s2 := sample_run
              [Ingest (reading "A" "7"); ManualReset;
               Restore (Some scenario_snapshot); ReadNativeValue]
              (sample_listener (reading_in "Wh" "A" "20") (two_readings false)).1 in
  _unit_of_measurement_mismatch s2 = true ∧
  _attr_available s2 = false ∧
  (native_value s2).2 = None.
Proof.
  split; [reflexivity|].
  assert (Hdiff : Some "Wh" ≠ Some "kWh") by discriminate.
  destruct (C9_unit_mismatch_is_permanent decimal_of_string round_decimal
              (two_readings false) (reading_in "Wh" "A" "20") _ "kWh"
              [Ingest (reading "A" "7"); ManualReset;
               Restore (Some scenario_snapshot); ReadNativeValue]
              eq_refl eq_refl eq_refl Hdiff)
    as (_ & Hflag & Havail & Hnone & _).
  split_and!; [exact Hflag|exact Havail|exact Hnone].
Defined.

Lemma C10_witness :
  _unit_of_measurement_mismatch mismatched_sensor = true ∧
  let res := sample_listener (reading "B" "1") mismatched_sensor in
  last res.1 = Some (Fin 1) ∧ last_entity_id res.1 = Some "B" ∧
  min_value res.1 = Some (Fin 1) ∧ min_entity_id res.1 = Some "B" ∧
  res.2 = [WriteHaState] ∧
  (native_value res.1).2 = None.
Proof.
  split; [reflexivity|].
  assert (Htracked : "B" ∈ _entity_ids mismatched_sensor) by (right; left).
  destruct (C10_matching_reading_processed_under_mismatch
              decimal_of_string round_decimal
              mismatched_sensor (reading "B" "1") _ "kWh" (Fin 1)
              eq_refl eq_refl eq_refl eq_refl eq_refl eq_refl)
    as (Hres & _ & Hlast & Hlid & _ & _ & Htight & _ & Hnone).
  destruct (Htight mismatched_sensor_within Htracked) as [Hmin _].
  destruct (Hmin (Fin 3) eq_refl eq_refl) as [Hv Hid].
  split_and!; [exact Hlast|exact Hlid|exact Hv|exact Hid| |exact Hnone].
  cbv zeta. unfold sample_listener. by rewrite Hres.
Defined.

(** The last value is stored and read under [ATTR_LAST]; an attribute of
    another name, such as [last_value], is not looked at. *)
Lemma restore_reads_last_under_attr_last :
  last (async_added_to_hass decimal_of_string
          (Some {[ "last_value" := AttrStr "4.0" ]})
          (init ["A"; "B"] "min" 2 false)).1 = None ∧
  last (async_added_to_hass decimal_of_string
          (Some {[ ATTR_LAST := AttrStr "4.0" ]})
          (init ["A"; "B"] "min" 2 false)).1 = Some (Fin 4).
Proof. split; by vm_compute. Qed.

(** The worked scenario of the specification: tracked [A] and [B], a [max]
    sensor rounding to one digit. *)
Example scenario_max_one_digit :
  let s0 := init ["A"; "B"] "max" 1 false in
  let s1 := (sample_listener (reading "A" "3.14") s0).1 in
  let s2 := (sample_listener (reading "B" "5.789") s1).1 in
  let s3 := (sample_listener (reading "A" "10.0") s2).1 in
  let s4 := (reset s3).1 in
  (last s1, max_value s1, max_entity_id s1)
    = (Some (Fin (31 # 10)), Some (Fin (31 # 10)), Some "A") ∧
  (last s2, max_value s2, max_entity_id s2)
    = (Some (Fin (29 # 5)), Some (Fin (29 # 5)), Some "B") ∧
  (max_value s3, max_entity_id s3) = (Some (Fin 10), Some "A") ∧
  (min_value s4, max_value s4, last s4) = (Some (Fin 10), Some (Fin 10), Some (Fin 10)) ∧
  (min_entity_id s4, max_entity_id s4) = (None, None).
Proof. split_and!; by vm_compute. Qed.

(** * Further properties of the module *)

(** ** Which item the scan returns *)

Section ScanChoice.

Variable beats : float → float → bool.
Variable strictly : float → float → Prop.
Variable weakly : float → float → Prop.
Variable comparable : float → Prop.
Hypothesis strictly_beats : ∀ a b, strictly a b → beats a b = true.
Hypothesis weakly_not_beats : ∀ a b, weakly b a → beats a b = false.
Hypothesis beats_strictly : ∀ a b, beats a b = true → strictly a b.
Hypothesis not_beats_weakly : ∀ a b,
  comparable a → comparable b → beats a b = false → weakly b a.
Hypothesis strictly_trans : ∀ a b c, strictly a b → strictly b c → strictly a c.
Hypothesis strictly_weakly_trans : ∀ a b c, strictly a b → weakly b c → strictly a c.

(** A list without numbers leaves the accumulator alone. *)
Lemma scan_loop_no_number l : ∀ acc,
  (∀ e v, (e, Num v) ∉ l) → scan_loop beats l acc = acc.
Proof.
  induction l as [|[sid sv] rest IH]; intros acc Hno; [done|].
  assert (Hrest : ∀ e v, (e, Num v) ∉ rest).
  { intros e v Hin. apply (Hno e v). by right. }
  destruct sv as [sval| |]; simpl; [|by apply IH..].
  exfalso. apply (Hno sid sval). by left.
Qed.

(** Once the accumulator holds an item that nothing later beats, it is
    the result. *)
Lemma scan_loop_settled l : ∀ i a,
  (∀ e v, (e, Num v) ∈ l → weakly a v) →
  scan_loop beats l (i, Some a) = (i, Some a).
Proof.
  induction l as [|[sid sv] rest IH]; intros i a Hall; [done|].
  assert (Hrest : ∀ e v, (e, Num v) ∈ rest → weakly a v).
  { intros e v Hin. apply (Hall e v). by right. }
  destruct sv as [sval| |]; simpl; [|by apply IH..].
  assert (Hb : beats sval a = false).
  { apply weakly_not_beats, (Hall sid). by left. }
  rewrite Hb. by apply IH.
Qed.

(** An item that strictly beats everything before it and is not beaten by
    anything after it is the one returned. *)
Lemma scan_loop_picks l1 : ∀ l2 acc e a,
  (∀ c, acc.2 = Some c → strictly a c) →
  (∀ e' v, (e', Num v) ∈ l1 → strictly a v) →
  (∀ e' v, (e', Num v) ∈ l2 → weakly a v) →
  scan_loop beats (l1 ++ (e, Num a) :: l2)%list acc = (Some e, Some a).
Proof.
  induction l1 as [|[sid sv] rest IH]; intros l2 acc e a Hacc H1 H2; simpl.
  - destruct acc as [ai [c|]]; simpl.
    + assert (Hb : beats a c = true) by by apply strictly_beats, Hacc.
      rewrite Hb. by apply scan_loop_settled.
    + by apply scan_loop_settled.
  - assert (Hrest : ∀ e' v, (e', Num v) ∈ rest → strictly a v).
    { intros e' v Hin. apply (H1 e' v). by right. }
    destruct sv as [sval| |]; [|by apply IH..].
    assert (Hsv : strictly a sval) by (apply (H1 sid); by left).
    apply IH; [|done..].
    destruct acc as [ai [val|]]; simpl; [destruct (beats sval val) eqn:E|];
      simpl; intros c [= <-]; [done| |done].
    by apply Hacc.
Qed.

(** Conversely, on comparable numbers, the item returned is such an item,
    unless it is the accumulator itself. *)
Lemma scan_loop_picked l : ∀ acc e a,
  (∀ c, acc.2 = Some c → comparable c) →
  (∀ e' v, (e', Num v) ∈ l → comparable v) →
  scan_loop beats l acc = (Some e, Some a) →
  (acc = (Some e, Some a) ∧ ∀ e' v, (e', Num v) ∈ l → weakly a v) ∨
  ∃ l1 l2, l = (l1 ++ (e, Num a) :: l2)%list ∧
    (∀ c, acc.2 = Some c → strictly a c) ∧
    (∀ e' v, (e', Num v) ∈ l1 → strictly a v) ∧
    (∀ e' v, (e', Num v) ∈ l2 → weakly a v).
Proof.
  induction l as [|[sid sv] rest IH]; intros acc e a Hcacc Hcl Hres;
    simpl in Hres.
  - left. split; [done|]. by intros e' v ?%elem_of_nil.
  - assert (Hcrest : ∀ e' v, (e', Num v) ∈ rest → comparable v).
    { intros e' v Hin. apply (Hcl e' v). by right. }
    destruct sv as [sval| |].
    + assert (Hcs : comparable sval) by (apply (Hcl sid); by left).
      apply IH in Hres as [[Hacc Hall]|(l1 & l2 & -> & Hacc & H1 & H2)];
        [| |destruct acc as [ai [val|]]; simpl in *;
            [destruct (beats sval val)|]; simpl; intros c [= <-];
            by first [done|apply Hcacc]
         |done].
      * destruct acc as [ai [val|]]; simpl in Hacc;
          [destruct (beats sval val) eqn:E|].
        -- injection Hacc as <- <-. right. exists [], rest.
           split_and!; [done| |by intros e' v ?%elem_of_nil|done].
           simpl. intros c [= <-]. by apply beats_strictly.
        -- injection Hacc as -> ->. left. split; [done|].
           intros e' v [[= -> ->]|Hin]%elem_of_cons; [|by eapply Hall].
           apply not_beats_weakly; [done| |done]. by apply Hcacc.
        -- injection Hacc as <- <-. right. exists [], rest.
           split_and!; [done|done|by intros e' v ?%elem_of_nil|done].
      * right. exists ((sid, Num sval) :: l1), l2.
        assert (Hboth : strictly a sval ∧ ∀ c, acc.2 = Some c → strictly a c).
        { destruct acc as [ai [val|]]; simpl in *;
            [destruct (beats sval val) eqn:E|]; simpl in Hacc.
          - pose proof (Hacc _ eq_refl) as Has. split; [done|].
            intros c [= <-]. eapply strictly_trans; [exact Has|].
            by apply beats_strictly.
          - pose proof (Hacc _ eq_refl) as Hav. split; [|by intros c [= <-]].
            eapply strictly_weakly_trans; [exact Hav|].
            apply not_beats_weakly; [done| |done]. by apply Hcacc.
          - split; [by apply Hacc|done]. }
        destruct Hboth as [Hsv Hacc'].
        split_and!; [done|done| |done].
        intros e' v [[= -> ->]|Hin]%elem_of_cons; [done|by eapply H1].
    + apply IH in Hres as [[Hacc Hall]|(l1 & l2 & -> & Hacc & H1 & H2)];
        [| |done..].
      * left. split; [done|].
        intros e' v [[=]|Hin]%elem_of_cons. by eapply Hall.
      * right. exists ((sid, Unknown) :: l1), l2. split_and!; [done|done| |done].
        intros e' v [[=]|Hin]%elem_of_cons. by eapply H1.
    + apply IH in Hres as [[Hacc Hall]|(l1 & l2 & -> & Hacc & H1 & H2)];
        [| |done..].
      * left. split; [done|].
        intros e' v [[=]|Hin]%elem_of_cons. by eapply Hall.
      * right. exists ((sid, Unavailable) :: l1), l2.
        split_and!; [done|done| |done].
        intros e' v [[=]|Hin]%elem_of_cons. by eapply H1.
Qed.

End ScanChoice.

Lemma calc_min_picks l1 l2 e a :
  (∀ e' v, (e', Num v) ∈ l1 → (a < v)%F) →
  (∀ e' v, (e', Num v) ∈ l2 → (a <= v)%F) →
  _calc_min (l1 ++ (e, Num a) :: l2)%list = (Some e, Some a).
Proof.
  intros H1 H2. unfold _calc_min. rewrite calc_min_loop_scan.
  apply (scan_loop_picks flt float_lt float_le); try done.
  intros x y. apply fle_not_flt.
Qed.

Lemma calc_max_picks l1 l2 e a :
  (∀ e' v, (e', Num v) ∈ l1 → (v < a)%F) →
  (∀ e' v, (e', Num v) ∈ l2 → (v <= a)%F) →
  _calc_max (l1 ++ (e, Num a) :: l2)%list = (Some e, Some a).
Proof.
  intros H1 H2. unfold _calc_max. rewrite calc_max_loop_scan.
  apply (scan_loop_picks _ (λ x y, (y < x)%F) (λ x y, (y <= x)%F)); try done.
  intros x y. apply fle_not_flt.
Qed.

(** On a list that holds no [nan], [_calc_min] returns the smallest number
    of the list, with the entity of its first occurrence: the item
    returned is strictly below every number before it and not above any
    number after it, and only such an item is returned. *)
Theorem calc_min_first_smallest l e a :
  no_nan l →
  _calc_min l = (Some e, Some a) ↔
  ∃ l1 l2, l = (l1 ++ (e, Num a) :: l2)%list ∧
    (∀ e' v, (e', Num v) ∈ l1 → (a < v)%F) ∧
    (∀ e' v, (e', Num v) ∈ l2 → (a <= v)%F).
Proof.
  intros Hl. split.
  - unfold _calc_min. rewrite calc_min_loop_scan. intros H.
    apply (scan_loop_picked flt float_lt float_le (λ x, is_nan x = false)) in H
      as [[[=] _]|(l1 & l2 & -> & _ & H1 & H2)]; eauto.
    + intros x y Hx Hy. by apply not_flt_fle.
    + intros x y z. apply flt_trans.
    + intros x y z. apply flt_fle_trans.
    + by intros c [=].
  - intros (l1 & l2 & -> & H1 & H2). by apply calc_min_picks.
Qed.

(** On a list that holds no [nan], [_calc_max] returns the largest number
    of the list, with the entity of its first occurrence. *)
Theorem calc_max_first_largest l e a :
  no_nan l →
  _calc_max l = (Some e, Some a) ↔
  ∃ l1 l2, l = (l1 ++ (e, Num a) :: l2)%list ∧
    (∀ e' v, (e', Num v) ∈ l1 → (v < a)%F) ∧
    (∀ e' v, (e', Num v) ∈ l2 → (v <= a)%F).
Proof.
  intros Hl. split.
  - unfold _calc_max. rewrite calc_max_loop_scan. intros H.
    apply (scan_loop_picked _ (λ x y, (y < x)%F) (λ x y, (y <= x)%F)
             (λ x, is_nan x = false)) in H
      as [[[=] _]|(l1 & l2 & -> & _ & H1 & H2)]; eauto.
    + intros x y Hx Hy. by apply not_flt_fle.
    + intros x y z Hxy Hyz. by eapply flt_trans.
    + intros x y z Hxy Hyz. by eapply fle_flt_trans.
    + by intros c [=].
  - intros (l1 & l2 & -> & H1 & H2). by apply calc_max_picks.
Qed.

(** Both scans return [(None, None)] exactly on a list that holds no number
    (empty, or markers only); otherwise both return an entity and a value. *)
Theorem calc_min_max_nothing_iff_no_number l :
  (_calc_min l = (None, None) ↔ ∀ e v, (e, Num v) ∉ l) ∧
  (_calc_max l = (None, None) ↔ ∀ e v, (e, Num v) ∉ l) ∧
  ((∃ e v, (e, Num v) ∈ l) →
     (∃ i a, _calc_min l = (Some i, Some a)) ∧
     (∃ j b, _calc_max l = (Some j, Some b))).
Proof.
  split_and!.
  - split; [apply calc_min_none|].
    intros Hno. unfold _calc_min. rewrite calc_min_loop_scan.
    by apply scan_loop_no_number.
  - split; [apply calc_max_none|].
    intros Hno. unfold _calc_max. rewrite calc_max_loop_scan.
    by apply scan_loop_no_number.
  - intros (e & v & Hin). split.
    + destruct (_calc_min l) as [i [a|]] eqn:E.
      * destruct (calc_min_member _ _ _ E) as (e' & -> & _). eauto.
      * by eapply calc_min_none in E.
    + destruct (_calc_max l) as [i [a|]] eqn:E.
      * destruct (calc_max_member _ _ _ E) as (e' & -> & _). eauto.
      * by eapply calc_max_none in E.
Qed.

(** ** Recomputation *)

(** When the stored numbers lie between the extrema, [_calc_values] changes
    nothing at all. *)
Lemma calc_values_within_fixed s : within_extrema s → _calc_values s = s.
Proof.
  intros Hw. unfold _calc_values, merge_max, merge_min.
  destruct (_calc_min _) as [i [v|]] eqn:Ec; simpl.
  - apply calc_min_member in Ec as (e & _ & [He Hv]%elem_of_sensor_values).
    destruct (Hw e v He Hv) as [(m & Hm & Hle) _].
    rewrite Hm. apply fle_not_flt in Hle. rewrite Hle.
    destruct (_calc_max _) as [j [w|]] eqn:Ed; simpl; [|done].
    apply calc_max_member in Ed as (e' & _ & [He' Hv']%elem_of_sensor_values).
    destruct (Hw e' w He' Hv') as [_ (M & HM & Hle')].
    rewrite HM. apply fle_not_flt in Hle'. by rewrite Hle'.
  - destruct (_calc_max _) as [j [w|]] eqn:Ed; simpl; [|done].
    apply calc_max_member in Ed as (e' & _ & [He' Hv']%elem_of_sensor_values).
    destruct (Hw e' w He' Hv') as [_ (M & HM & Hle')].
    rewrite HM. apply fle_not_flt in Hle'. by rewrite Hle'.
Qed.

Lemma merge_min_twice c s : merge_min c (merge_min c s) = merge_min c s.
Proof.
  unfold merge_min. destruct c as [i [v|]]; simpl; [|done].
  destruct (min_value s) as [m|] eqn:Em; simpl.
  - destruct (flt v m) eqn:Ev; simpl; [by rewrite flt_irrefl|].
    by rewrite Em, Ev.
  - by rewrite flt_irrefl.
Qed.

Lemma merge_max_twice c s : merge_max c (merge_max c s) = merge_max c s.
Proof.
  unfold merge_max. destruct c as [i [v|]]; simpl; [|done].
  destruct (max_value s) as [m|] eqn:Em; simpl.
  - destruct (flt m v) eqn:Ev; simpl; [by rewrite flt_irrefl|].
    by rewrite Em, Ev.
  - by rewrite flt_irrefl.
Qed.

Lemma merge_min_merge_max c d s :
  merge_min c (merge_max d s) = merge_max d (merge_min c s).
Proof.
  unfold merge_min, merge_max.
  destruct c as [i [v|]], d as [j [w|]]; simpl; try done;
    destruct (min_value s) as [m|] eqn:Em, (max_value s) as [M|] eqn:EM; simpl;
    try (destruct (flt v m) eqn:Ev; simpl);
    try (destruct (flt M w) eqn:Ew; simpl);
    by rewrite ?Em, ?EM, ?Ev, ?Ew.
Qed.

Lemma merge_twice cmin cmax s :
  merge_max cmax (merge_min cmin (merge_max cmax (merge_min cmin s)))
  = merge_max cmax (merge_min cmin s).
Proof.
  by rewrite merge_min_merge_max, merge_max_twice, merge_min_twice.
Qed.

(** [_calc_values] is idempotent, whatever the entity looks like; and when
    no number stored or held by the entity is [nan], every number stored
    for a tracked entity lies between [min_value] and [max_value] after
    it. *)
Theorem calc_values_idempotent_and_covering s :
  _calc_values (_calc_values s) = _calc_values s ∧
  (nan_free s → within_extrema (_calc_values s)).
Proof.
  split; [|apply calc_values_within].
  unfold _calc_values at 1.
  rewrite calc_values_entity_ids, calc_values_states.
  apply merge_twice.
Qed.

Lemma sensor_values_of_untracked ids (st : gmap string sensor_value) e v :
  e ∉ ids → sensor_values_of ids (<[e := v]> st) = sensor_values_of ids st.
Proof.
  induction ids as [|eid rest IH]; intros He; [done|].
  apply not_elem_of_cons in He as [Hne Hrest]. simpl.
  rewrite lookup_insert_ne by done. rewrite IH by done. done.
Qed.

Lemma merge_min_set_state c e v s :
  merge_min c (set_state e v s) = set_state e v (merge_min c s).
Proof. unfold merge_min. simpl. by repeat case_match. Qed.

Lemma merge_max_set_state c e v s :
  merge_max c (set_state e v s) = set_state e v (merge_max c s).
Proof. unfold merge_max. simpl. by repeat case_match. Qed.

(** What is stored for an entity that is not tracked has no part in the
    recomputation: storing it and recomputing commute. *)
Theorem calc_values_ignores_untracked s e v :
  e ∉ _entity_ids s →
  _calc_values (set_state e v s) = set_state e v (_calc_values s).
Proof.
  intros He. unfold _calc_values. simpl.
  rewrite sensor_values_of_untracked by done.
  by rewrite merge_min_set_state, merge_max_set_state.
Qed.

Lemma sensor_values_of_app ids1 ids2 (st : gmap string sensor_value) :
  sensor_values_of (ids1 ++ ids2) st
  = (sensor_values_of ids1 st ++ sensor_values_of ids2 st)%list.
Proof.
  induction ids1 as [|eid rest IH]; [done|]. simpl.
  destruct (st !! eid); by rewrite IH.
Qed.

(** Among the tracked entities, the one that comes first in [entity_ids]
    wins a tie: an entity whose stored number is strictly below those of
    the entities before it, not above those of the entities after it and
    strictly below the running minimum becomes [min_entity_id]. *)
Theorem earliest_tracked_entity_takes_minimum s before e after a :
  _entity_ids s = (before ++ e :: after)%list →
  states s !! e = Some (Num a) →
  (∀ e' v, e' ∈ before → states s !! e' = Some (Num v) → (a < v)%F) →
  (∀ e' v, e' ∈ after → states s !! e' = Some (Num v) → (a <= v)%F) →
  (∀ m, min_value s = Some m → (a < m)%F) →
  min_value (_calc_values s) = Some a ∧
  min_entity_id (_calc_values s) = Some e.
Proof.
  intros Hids He Hbefore Hafter Hcur.
  pose proof (calc_values_min s) as H. simpl in H.
  rewrite Hids, sensor_values_of_app in H. simpl in H. rewrite He in H.
  rewrite calc_min_picks in H.
  - simpl in H. destruct (min_value s) as [m|]; [|by injection H as -> ->].
    assert (Hb : flt a m = true) by by apply Hcur.
    rewrite Hb in H. by injection H as -> ->.
  - intros e' v [? ?]%elem_of_sensor_values. by eapply Hbefore.
  - intros e' v [? ?]%elem_of_sensor_values. by eapply Hafter.
Qed.

(** The same tie-break for the maximum: a tracked entity whose stored
    number is strictly above those of the entities before it in
    [entity_ids], not below those of the entities after it and strictly
    above the running maximum becomes [max_entity_id]. *)
Theorem earliest_tracked_entity_takes_maximum s before e after a :
  _entity_ids s = (before ++ e :: after)%list →
  states s !! e = Some (Num a) →
  (∀ e' v, e' ∈ before → states s !! e' = Some (Num v) → (v < a)%F) →
  (∀ e' v, e' ∈ after → states s !! e' = Some (Num v) → (v <= a)%F) →
  (∀ M, max_value s = Some M → (M < a)%F) →
  max_value (_calc_values s) = Some a ∧
  max_entity_id (_calc_values s) = Some e.
Proof.
  intros Hids He Hbefore Hafter Hcur.
  pose proof (calc_values_max s) as H. simpl in H.
  rewrite Hids, sensor_values_of_app in H. simpl in H. rewrite He in H.
  rewrite calc_max_picks in H.
  - simpl in H. destruct (max_value s) as [M|]; [|by injection H as -> ->].
    assert (Hb : flt M a = true) by by apply Hcur.
    rewrite Hb in H. by injection H as -> ->.
  - intros e' v [? ?]%elem_of_sensor_values. by eapply Hbefore.
  - intros e' v [? ?]%elem_of_sensor_values. by eapply Hafter.
Qed.

(** After a recomputation on an entity that stores and holds no [nan], the
    value of a sensor whose units agree bounds every number stored for a
    tracked entity: from below for a [min] sensor, from above for any other
    type; reading it changes nothing. *)
Theorem native_value_bounds_stored_numbers s e v :
  nan_free s →
  _unit_of_measurement_mismatch s = false →
  e ∈ _entity_ids s →
  states s !! e = Some (Num v) →
  ∃ r, native_value (_calc_values s) = (_calc_values s, Some r) ∧
       if String.eqb (_sensor_type s) "min" then (r <= v)%F else (v <= r)%F.
Proof.
  intros Hnf Hmm He Hv.
  destruct (calc_values_within s Hnf e v) as [(m & Hm & Hle) (M & HM & Hge)].
  { by rewrite calc_values_entity_ids. }
  { by rewrite calc_values_states. }
  assert (Hty : _sensor_type (_calc_values s) = _sensor_type s) by calc_frame.
  unfold native_value. rewrite calc_values_mismatch, Hmm, Hty.
  destruct (String.eqb (_sensor_type s) "min");
    [exists m; by rewrite Hm|exists M; by rewrite HM].
Qed.

(** ** The listener and the machine, continued *)

Section Coverage.

Variable float_of_string : string → option float.
Variable py_round : float → Z → float.

Local Abbreviation listen := (_async_sensor_state_listener float_of_string py_round).
Local Abbreviation added_to_hass := (async_added_to_hass float_of_string).
Local Abbreviation exec := (run float_of_string py_round).
Local Abbreviation do_step := (step float_of_string py_round).

(** The entity a call of the listener leaves behind, branch by branch. *)
Lemma listener_shape ev s :
  (listen ev s).1 = _calc_values (set_state (ev_entity_id ev) Unknown s) ∨
  (∃ ns, (listen ev s).1 = set_available false (set_mismatch true (record_unit ns s))) ∨
  (∃ ns v, (listen ev s).1 =
     _calc_values (set_last (Some (ev_entity_id ev)) (Some v)
                     (set_state (ev_entity_id ev) (Num v) (record_unit ns s)))) ∨
  (∃ ns, (listen ev s).1 = record_unit ns s).
Proof.
  unfold _async_sensor_state_listener.
  destruct (new_state ev) as [ns|]; [|by left].
  destruct (is_marker (state ns)); [by left|].
  case_bool_decide; [right; left; by exists ns|].
  destruct (float_of_string (state ns)) as [x|].
  - right. right. left. by eexists ns, _.
  - right. right. right. by exists ns.
Qed.

(** The entity [async_added_to_hass] leaves behind: the stored fields are
    assigned one after the other, then the recomputation runs. *)
Lemma added_to_hass_shape last_state s :
  ∃ v1 v2 v3 i1 i2 i3,
    (added_to_hass last_state s).1 =
    _calc_values (set_last i3 v3 (set_max i2 v2 (set_min i1 v1 s))).
Proof.
  unfold async_added_to_hass. simpl.
  destruct last_state as [attributes|].
  - unfold restore_ids, restore_last, restore_max, restore_min.
    repeat case_match; simpl; by eexists _, _, _, _, _, _.
  - exists (min_value s), (max_value s), (last s),
      (min_entity_id s), (max_entity_id s), (last_entity_id s).
    by destruct s.
Qed.

(** The entity [reset] leaves behind. *)
Lemma reset_shape s :
  (reset s).1 = s ∨
  (reset s).1 = set_last None (last s) (set_max None (last s) (set_min None (last s) s)).
Proof. unfold reset. destruct (_manual_reset_only s); [by left|by right]. Qed.

Lemma native_value_shape s :
  (native_value s).1 = s ∨ (native_value s).1 = set_available false s.
Proof. unfold native_value. repeat case_match; first [by left|by right]. Qed.

Lemma same_config_trans s1 s2 s3 :
  same_config s1 s2 → same_config s2 s3 → same_config s1 s3.
Proof.
  intros (H1 & H2 & H3 & H4 & H5) (G1 & G2 & G3 & G4 & G5).
  unfold same_config. by rewrite G1, G2, G3, G4, G5.
Qed.

Lemma calc_values_same_config s : same_config s (_calc_values s).
Proof. unfold same_config. split_and!; calc_frame. Qed.

Lemma record_unit_same_config ns s : same_config s (record_unit ns s).
Proof. unfold same_config, record_unit. by destruct (_unit_of_measurement s). Qed.

Lemma step_same_config o s : same_config s (do_step o s).1.
Proof.
  destruct o as [ev| | | |last_state|]; unfold step; cbn [fst].
  - destruct (listener_shape ev s) as [->|[(ns & ->)|[(ns & v & ->)|(ns & ->)]]].
    + by eapply same_config_trans; [|apply calc_values_same_config].
    + by eapply same_config_trans; [apply (record_unit_same_config ns)|].
    + eapply same_config_trans; [apply (record_unit_same_config ns)|].
      by eapply same_config_trans; [|apply calc_values_same_config].
    + apply record_unit_same_config.
  - apply calc_values_same_config.
  - by destruct (reset_shape s) as [->| ->].
  - rewrite async_reset_state. by destruct (reset_shape s) as [->| ->].
  - destruct (added_to_hass_shape last_state s)
      as (v1 & v2 & v3 & i1 & i2 & i3 & ->).
    by eapply same_config_trans; [|apply calc_values_same_config].
  - by destruct (native_value_shape s) as [->| ->].
Qed.

Lemma run_same_config ops : ∀ s, same_config s (exec ops s).
Proof.
  induction ops as [|o rest IH]; intros s; [done|]. simpl.
  eapply same_config_trans; [apply step_same_config|apply IH].
Qed.

(** Over any sequence of operations the configuration is the one given to
    [__init__], and [count_sensors] stays the number of tracked entities
    when it was so at the start. *)
Theorem run_keeps_configuration ops s :
  same_config s (exec ops s) ∧
  (count_sensors s = length (_entity_ids s) →
   count_sensors (exec ops s) = length (_entity_ids (exec ops s))).
Proof.
  pose proof (run_same_config ops s) as Hc. split; [done|].
  destruct Hc as (-> & _ & _ & _ & ->). done.
Qed.

(** An operation leaves [self.states] as it is or assigns one entry. *)
Lemma step_states o s :
  states (do_step o s).1 = states s ∨
  ∃ e v, states (do_step o s).1 = <[e := v]> (states s).
Proof.
  destruct o as [ev| | | |last_state|]; unfold step; cbn [fst].
  - destruct (listener_shape ev s) as [->|[(ns & ->)|[(ns & v & ->)|(ns & ->)]]];
      rewrite ?calc_values_states; simpl; rewrite ?record_unit_states; eauto.
  - left. apply calc_values_states.
  - by destruct (reset_shape s) as [->| ->]; left.
  - rewrite async_reset_state. by destruct (reset_shape s) as [->| ->]; left.
  - destruct (added_to_hass_shape last_state s)
      as (v1 & v2 & v3 & i1 & i2 & i3 & ->).
    left. by rewrite calc_values_states.
  - by destruct (native_value_shape s) as [->| ->]; left.
Qed.

(** [self.states] only grows: over any sequence of operations an entity
    that has an entry keeps one (a marker reading overwrites the entry, it
    does not remove it). *)
Theorem run_never_forgets_an_entity ops s :
  dom (states s) ⊆ dom (states (run float_of_string py_round ops s)).
Proof.
  revert s. induction ops as [|o rest IH]; intros s; [done|]. simpl.
  etrans; [|apply IH].
  destruct (step_states o s) as [->|(e & v & ->)]; [done|].
  rewrite dom_insert. set_solver.
Qed.

Lemma step_keeps_unit o s u :
  _unit_of_measurement s = Some u → _unit_of_measurement (do_step o s).1 = Some u.
Proof.
  intros Hu. destruct o as [ev| | | |last_state|]; unfold step; cbn [fst].
  - destruct (listener_shape ev s) as [->|[(ns & ->)|[(ns & v & ->)|(ns & ->)]]];
      rewrite ?calc_values_unit; simpl;
      rewrite ?(record_unit_recorded ns s u Hu); done.
  - by rewrite calc_values_unit.
  - by destruct (reset_shape s) as [->| ->].
  - rewrite async_reset_state. by destruct (reset_shape s) as [->| ->].
  - destruct (added_to_hass_shape last_state s)
      as (v1 & v2 & v3 & i1 & i2 & i3 & ->).
    by rewrite calc_values_unit.
  - by destruct (native_value_shape s) as [->| ->].
Qed.

(** The unit of measurement is recorded once: after it is set no sequence
    of operations changes it, readings in another unit, resets and restores
    included. *)
Theorem run_keeps_recorded_unit ops s u :
  _unit_of_measurement s = Some u →
  _unit_of_measurement (run float_of_string py_round ops s) = Some u.
Proof.
  revert s. induction ops as [|o rest IH]; intros s Hu; [done|]. simpl.
  by apply IH, step_keeps_unit.
Qed.

(** Each call of the listener performs exactly one host call: it writes the
    state, or it logs one warning.  It writes exactly when the reading is a
    marker, or carries the recorded unit (the first unit seen being recorded
    on the spot) and a payload that is a number. *)
Theorem listener_writes_iff_marker_or_number ev s :
  ((listen ev s).2 = [WriteHaState] ∨
   (listen ev s).2 = [WarnUnitMismatch] ∨
   (listen ev s).2 = [WarnNonNumeric (ev_entity_id ev)]) ∧
  (WriteHaState ∈ (listen ev s).2 ↔
   is_marker_event ev = true ∨
   ∃ ns x, new_state ev = Some ns ∧
     _unit_of_measurement (record_unit ns s) = unit_of_measurement ns ∧
     float_of_string (state ns) = Some x).
Proof.
  unfold is_marker_event, _async_sensor_state_listener.
  destruct (new_state ev) as [ns|]; simpl.
  2:{ split; [by left|]. split; [by left|intros _; by left]. }
  destruct (is_marker (state ns)) eqn:Emarker; simpl.
  { split; [by left|]. split; [by left|intros _; by left]. }
  case_bool_decide as Hunit; simpl.
  { split; [right; by left|]. split.
    - by intros [=]%list_elem_of_singleton.
    - intros [[=]|(ns' & x & [= <-] & Hu & _)]. done. }
  destruct (float_of_string (state ns)) as [x|] eqn:Efloat; simpl.
  - split; [by left|]. split; [|intros _; by left].
    intros _. right. exists ns, x. split_and!; [done| |done].
    by destruct (decide (_unit_of_measurement (record_unit ns s)
                         = unit_of_measurement ns)).
  - split; [right; by right|]. split.
    + by intros [=]%list_elem_of_singleton.
    + intros [[=]|(ns' & x & [= <-] & _ & Hx)]. congruence.
Qed.

(** Setting the two availability flags commutes with the recomputation and
    with every operation: none of them reads the flags, and [native_value]
    only sets what is already set. *)
Lemma merge_min_flagged c s :
  merge_min c (set_available false (set_mismatch true s)) =
  set_available false (set_mismatch true (merge_min c s)).
Proof. unfold merge_min. simpl. by repeat case_match. Qed.

Lemma merge_max_flagged c s :
  merge_max c (set_available false (set_mismatch true s)) =
  set_available false (set_mismatch true (merge_max c s)).
Proof. unfold merge_max. simpl. by repeat case_match. Qed.

Lemma calc_values_flagged s :
  _calc_values (set_available false (set_mismatch true s)) =
  set_available false (set_mismatch true (_calc_values s)).
Proof.
  unfold _calc_values. simpl. by rewrite merge_min_flagged, merge_max_flagged.
Qed.

Lemma record_unit_flagged ns s :
  record_unit ns (set_available false (set_mismatch true s)) =
  set_available false (set_mismatch true (record_unit ns s)).
Proof. unfold record_unit. simpl. by destruct (_unit_of_measurement s). Qed.

Lemma restore_min_flagged attributes s :
  restore_min float_of_string attributes (set_available false (set_mismatch true s)) =
  set_available false (set_mismatch true (restore_min float_of_string attributes s)).
Proof. unfold restore_min. simpl. by case_match. Qed.

Lemma restore_max_flagged attributes s :
  restore_max float_of_string attributes (set_available false (set_mismatch true s)) =
  set_available false (set_mismatch true (restore_max float_of_string attributes s)).
Proof. unfold restore_max. simpl. by case_match. Qed.

Lemma restore_last_flagged attributes s :
  restore_last float_of_string attributes (set_available false (set_mismatch true s)) =
  set_available false (set_mismatch true (restore_last float_of_string attributes s)).
Proof. unfold restore_last. simpl. by case_match. Qed.

Lemma restore_ids_flagged attributes s :
  restore_ids attributes (set_available false (set_mismatch true s)) =
  set_available false (set_mismatch true (restore_ids attributes s)).
Proof. done. Qed.

Lemma listener_flagged ev s :
  listen ev (set_available false (set_mismatch true s)) =
  (set_available false (set_mismatch true (listen ev s).1), (listen ev s).2).
Proof.
  unfold _async_sensor_state_listener.
  destruct (new_state ev) as [ns|].
  2:{ simpl. f_equal.
      apply (calc_values_flagged (set_state (ev_entity_id ev) Unknown s)). }
  destruct (is_marker (state ns)).
  { simpl. f_equal.
    apply (calc_values_flagged (set_state (ev_entity_id ev) Unknown s)). }
  rewrite record_unit_flagged.
  change (_unit_of_measurement (set_available false (set_mismatch true (record_unit ns s))))
    with (_unit_of_measurement (record_unit ns s)).
  change (_round_digits (set_available false (set_mismatch true (record_unit ns s))))
    with (_round_digits (record_unit ns s)).
  case_bool_decide; [done|].
  destruct (float_of_string (state ns)) as [x|]; [|done].
  simpl. f_equal.
  apply (calc_values_flagged
           (set_last _ _ (set_state (ev_entity_id ev) _ (record_unit ns s)))).
Qed.

Lemma step_flagged o s :
  do_step o (set_available false (set_mismatch true s)) =
  (set_available false (set_mismatch true (do_step o s).1), (do_step o s).2).
Proof.
  destruct o as [ev| | | |last_state|]; simpl.
  - apply listener_flagged.
  - by rewrite calc_values_flagged.
  - unfold reset. simpl. by destruct (_manual_reset_only s).
  - unfold async_reset, reset. simpl. by destruct (_manual_reset_only s).
  - unfold async_added_to_hass. simpl. f_equal.
    destruct last_state as [attributes|]; [|apply calc_values_flagged].
    by rewrite restore_min_flagged, restore_max_flagged, restore_last_flagged,
      restore_ids_flagged, calc_values_flagged.
  - unfold native_value. simpl. by repeat case_match.
Qed.

Lemma run_flagged ops : ∀ s,
  exec ops (set_available false (set_mismatch true s)) =
  set_available false (set_mismatch true (exec ops s)).
Proof.
  induction ops as [|o rest IH]; intros s; [done|].
  cbn [run]. rewrite step_flagged. cbn [fst]. apply IH.
Qed.

(** A reading dropped for its unit leaves no trace but the two flags:
    whatever operations follow, the entity is the one they would have
    produced without that reading, with the mismatch set and the entity
    unavailable. *)
Theorem mismatched_reading_leaves_only_flags s ev ns u ops :
  new_state ev = Some ns →
  is_marker (state ns) = false →
  _unit_of_measurement s = Some u →
  unit_of_measurement ns ≠ Some u →
  exec ops (listen ev s).1 =
  set_available false (set_mismatch true (exec ops s)).
Proof.
  intros Hns Hmarker Hu Hdiff.
  rewrite (listener_unit_differs float_of_string py_round ev s ns u) by done.
  apply run_flagged.
Qed.

(** On an entity that stores and holds no [nan], a reading of a tracked
    entity that was processed as a number other than [nan] stays between
    the extrema for as long as readings are only ingested, whatever they
    are: at any later point [min_value] is at most, and [max_value] at
    least, its rounded value. *)
Theorem accepted_reading_stays_between_extrema s ev ns x evs :
  nan_free s →
  is_nan (py_round x (_round_digits s)) = false →
  new_state ev = Some ns →
  is_marker (state ns) = false →
  _unit_of_measurement (record_unit ns s) = unit_of_measurement ns →
  float_of_string (state ns) = Some x →
  ev_entity_id ev ∈ _entity_ids s →
  let r := py_round x (_round_digits s) in
  let s' := exec (Ingest <$> evs) (listen ev s).1 in
  (∃ m, min_value s' = Some m ∧ (m <= r)%F) ∧
  (∃ M, max_value s' = Some M ∧ (r <= M)%F).
Proof.
  intros Hnf Hnan Hns Hmarker Hunit Hfloat He r s'. subst s'.
  rewrite (listener_numeric float_of_string py_round ev s ns x) by done.
  simpl. fold r.
  set (s1 := set_last _ _ (set_state (ev_entity_id ev) (Num r) (record_unit ns s))).
  assert (Hnf1 : nan_free s1)
    by (apply store_reading_nan_free; [done|by apply record_unit_nan_free]).
  destruct (calc_values_within s1 Hnf1 (ev_entity_id ev) r)
    as [(m & Hm & Hmr) (M & HM & HrM)].
  { rewrite calc_values_entity_ids. simpl. by rewrite record_unit_entity_ids. }
  { rewrite calc_values_states. simpl. apply lookup_insert_eq. }
  destruct (ingest_run_monotone float_of_string py_round evs (_calc_values s1))
    as [Hmin Hmax].
  destruct (Hmin m Hm) as (m' & Hm' & Hle). destruct (Hmax M HM) as (M' & HM' & Hge).
  split; [exists m'|exists M']; (split; [done|]).
  - destruct Hle as [->|Hlt]; [done|]. by eapply flt_fle, flt_fle_trans.
  - destruct Hge as [->|Hlt]; [done|]. by eapply flt_fle, fle_flt_trans.
Qed.

(** ** No value is invented *)

Lemma reported_app rd evs evs' v :
  reported float_of_string py_round rd evs v →
  reported float_of_string py_round rd (evs ++ evs') v.
Proof.
  intros (ev & ns & x & Hin & H). exists ev, ns, x. split; [|done].
  apply elem_of_app. by left.
Qed.

(** An extremum after [_calc_values] is the one before or a stored number. *)
Lemma calc_values_extrema_source s v :
  min_value (_calc_values s) = Some v ∨ max_value (_calc_values s) = Some v →
  min_value s = Some v ∨ max_value s = Some v ∨
  ∃ e, states s !! e = Some (Num v).
Proof.
  pose proof (calc_values_min s) as Hmin. pose proof (calc_values_max s) as Hmax.
  simpl in Hmin, Hmax. intros [Hv|Hv].
  - rewrite Hv in Hmin.
    destruct (_calc_min _) as [i [c|]] eqn:Ec; simpl in Hmin.
    + apply calc_min_member in Ec as (e & _ & [_ Hst]%elem_of_sensor_values).
      destruct (min_value s) as [cur|]; [destruct (flt c cur)|];
        injection Hmin as _ Hmin; simplify_eq; eauto.
    + injection Hmin as _ Hmin. by left.
  - rewrite Hv in Hmax.
    destruct (_calc_max _) as [i [c|]] eqn:Ec; simpl in Hmax.
    + apply calc_max_member in Ec as (e & _ & [_ Hst]%elem_of_sensor_values).
      destruct (max_value s) as [cur|]; [destruct (flt cur c)|];
        injection Hmax as _ Hmax; simplify_eq; eauto.
    + injection Hmax as _ Hmax. right. by left.
Qed.

Lemma calc_values_all_reported evs s :
  all_reported float_of_string py_round evs s →
  all_reported float_of_string py_round evs (_calc_values s).
Proof.
  intros [Hst Hval]. unfold all_reported.
  assert (Hrd : _round_digits (_calc_values s) = _round_digits s) by calc_frame.
  rewrite Hrd, calc_values_states, calc_values_last. split; [done|].
  intros v [Hv|[Hv|Hv]].
  - destruct (calc_values_extrema_source s v) as [H|[H|[e H]]]; eauto.
  - destruct (calc_values_extrema_source s v) as [H|[H|[e H]]]; eauto.
  - eauto.
Qed.

Lemma step_all_reported o evs s :
  is_restore o = false →
  all_reported float_of_string py_round evs s →
  all_reported float_of_string py_round (evs ++ ingested [o]) (do_step o s).1.
Proof.
  intros Hr Hs.
  assert (Hs' : all_reported float_of_string py_round (evs ++ ingested [o]) s).
  { destruct Hs as [Hst Hval]. split; [intros e v H|intros v H];
      apply reported_app; eauto. }
  clear Hs. destruct o as [ev| | | | |]; simpl in *; try done.
  - unfold _async_sensor_state_listener.
    destruct (new_state ev) as [ns|] eqn:Ens.
    2:{ apply calc_values_all_reported. destruct Hs' as [Hst Hval].
        split; [|done]. simpl. intros e v.
        destruct (decide (ev_entity_id ev = e)) as [->|Hne].
        - by rewrite lookup_insert_eq.
        - rewrite lookup_insert_ne by done. apply Hst. }
    destruct (is_marker (state ns)) eqn:Emarker.
    { apply calc_values_all_reported. destruct Hs' as [Hst Hval].
      split; [|done]. simpl. intros e v.
      destruct (decide (ev_entity_id ev = e)) as [->|Hne].
      - by rewrite lookup_insert_eq.
      - rewrite lookup_insert_ne by done. apply Hst. }
    assert (Hrec : all_reported float_of_string py_round (evs ++ [ev])
                     (record_unit ns s)).
    { destruct Hs' as [Hst Hval]. unfold all_reported.
      by rewrite record_unit_round_digits, record_unit_states,
        record_unit_min_value, record_unit_max_value, record_unit_last. }
    case_bool_decide as Hunit; simpl; [exact Hrec|].
    destruct (float_of_string (state ns)) as [x|] eqn:Efloat; simpl; [|exact Hrec].
    apply calc_values_all_reported. destruct Hrec as [Hst Hval].
    assert (Hnew : reported float_of_string py_round (_round_digits (record_unit ns s))
                     (evs ++ [ev]) (py_round x (_round_digits (record_unit ns s)))).
    { exists ev, ns, x. split_and!; try done. apply elem_of_app. right. by left. }
    split; simpl.
    + intros e v. destruct (decide (ev_entity_id ev = e)) as [->|Hne].
      * rewrite lookup_insert_eq. by intros [= <-].
      * rewrite lookup_insert_ne by done. apply Hst.
    + intros v [Hv|[Hv|Hv]]; [apply Hval; by left|apply Hval; right; by left|].
      by injection Hv as <-.
  - by apply calc_values_all_reported.
  - unfold reset. destruct (_manual_reset_only s); [done|].
    destruct Hs' as [Hst Hval]. split; [done|]. simpl.
    intros v [Hv|[Hv|Hv]]; apply Hval; by repeat right.
  - unfold async_reset, reset. destruct (_manual_reset_only s); [done|].
    destruct Hs' as [Hst Hval]. split; [done|]. simpl.
    intros v [Hv|[Hv|Hv]]; apply Hval; by repeat right.
  - unfold native_value. by repeat case_match.
Qed.

Lemma ingested_cons o ops : ingested (o :: ops) = (ingested [o] ++ ingested ops)%list.
Proof. by destruct o. Qed.

Lemma run_all_reported ops : ∀ evs s,
  existsb is_restore ops = false →
  all_reported float_of_string py_round evs s →
  all_reported float_of_string py_round (evs ++ ingested ops) (exec ops s).
Proof.
  induction ops as [|o rest IH]; intros evs s Hr Hs.
  - simpl. by rewrite app_nil_r.
  - simpl in Hr. apply orb_false_iff in Hr as [Ho Hrest].
    rewrite ingested_cons, app_assoc. simpl.
    apply IH; [done|]. by apply step_all_reported.
Qed.

(** Starting from the constructed entity and without a restore, whatever
    is ingested, recomputed, reset or read, [min_value], [max_value] and
    [last] only ever hold the rounded payload of a reading that was
    received (as does every number in [states]). *)
Theorem extrema_and_last_are_reported_values ids ty rd mro ops :
  existsb is_restore ops = false →
  let s' := exec ops (init ids ty rd mro) in
  ∀ v, min_value s' = Some v ∨ max_value s' = Some v ∨ last s' = Some v →
       reported float_of_string py_round rd (ingested ops) v.
Proof.
  intros Hr s' v Hv.
  destruct (run_all_reported ops [] (init ids ty rd mro) Hr) as [_ Hval].
  { split; [intros e w; simpl; by rewrite lookup_empty|].
    simpl. by intros w [?|[?|?]]. }
  destruct (run_same_config ops (init ids ty rd mro)) as (_ & _ & Hrd & _).
  fold s' in Hval, Hrd. rewrite Hrd in Hval. simpl in Hval. by apply Hval.
Qed.

(** On an entity that stores and holds no [nan], an executed reset puts
    the extrema in order whatever they were (after an inverted restore,
    for instance), and they stay in order under every operation but a
    restore, as long as no reading is [nan]. *)
Theorem executed_reset_orders_extrema s ops :
  nan_free s →
  _manual_reset_only s = false →
  existsb is_restore ops = false →
  no_nan_reading float_of_string py_round (_round_digits s) ops →
  extrema_ordered (exec ops (reset s).1).
Proof.
  intros Hnf Hm Hr Hev.
  apply (run_ordered float_of_string py_round); [done| |].
  - by rewrite (step_round_digits float_of_string py_round TimeReset).
  - split; [by apply reset_nan_free|by apply executed_reset_ordered].
Qed.

(** ** The exported attributes *)

Lemma export_fold_lookup s names : ∀ (d : gmap string attr) k,
  foldl (λ d name, match getattr s name with
                   | Some v => <[name := v]> d
                   | None => d
                   end) d names !! k =
  match (if decide (k ∈ names) then getattr s k else None) with
  | Some v => Some v
  | None => d !! k
  end.
Proof.
  induction names as [|a rest IH]; intros d k; simpl.
  - by destruct (decide (k ∈ [])) as [H%elem_of_nil|].
  - rewrite IH. destruct (decide (k ∈ rest)) as [Hin|Hnin].
    + rewrite decide_True by by right.
      destruct (getattr s k) as [v|] eqn:Ek; [done|].
      destruct (getattr s a) as [w|] eqn:Ea; [|done].
      rewrite lookup_insert_ne; [done|]. intros ->. congruence.
    + destruct (decide (a = k)) as [->|Hne].
      * rewrite decide_True by by left.
        destruct (getattr s k) as [v|]; [by rewrite lookup_insert_eq|done].
      * rewrite decide_False.
        2:{ intros [->|?]%elem_of_cons; done. }
        destruct (getattr s a) as [w|]; [by rewrite lookup_insert_ne|done].
Qed.

Lemma getattr_unlisted s k : k ∉ ATTR_TO_PROPERTY → getattr s k = None.
Proof.
  intros Hk. unfold getattr.
  repeat match goal with
         | |- context [String.eqb k ?name] =>
             destruct (String.eqb_spec k name) as [->|_];
               [exfalso; apply Hk; unfold ATTR_TO_PROPERTY;
                by repeat first [left|right]|]
         end.
  done.
Qed.

Lemma export_lookup s k : extra_state_attributes s !! k = getattr s k.
Proof.
  unfold extra_state_attributes. rewrite export_fold_lookup.
  rewrite lookup_empty. destruct (decide (k ∈ ATTR_TO_PROPERTY)) as [Hin|Hnin].
  - by destruct (getattr s k).
  - by rewrite getattr_unlisted.
Qed.

(** The exported dictionary holds, under each name of [ATTR_TO_PROPERTY],
    the attribute of that name when it is not [None], and nothing else: the
    count is always there, a value or an entity id only when it is set. *)
Theorem extra_state_attributes_lookup s k :
  extra_state_attributes s !! k = getattr s k ∧
  (k ∉ ATTR_TO_PROPERTY → extra_state_attributes s !! k = None) ∧
  extra_state_attributes s !! ATTR_COUNT_SENSORS
    = Some (AttrNum (Fin (inject_Z (Z.of_nat (count_sensors s))))).
Proof.
  split_and!; [apply export_lookup| |by rewrite export_lookup].
  intros Hk. by rewrite export_lookup, getattr_unlisted.
Qed.

(** What the entity exports is what a fresh entity restores: attached to
    the host with the exported attributes of [s], the constructed entity
    has the extrema, the last value and the three entity ids of [s]. *)
Theorem restore_of_exported_attributes s ids ty rd mro :
  let s' := (added_to_hass (Some (extra_state_attributes s))
               (init ids ty rd mro)).1 in
  min_value s' = min_value s ∧ max_value s' = max_value s ∧
  last s' = last s ∧
  min_entity_id s' = min_entity_id s ∧ max_entity_id s' = max_entity_id s ∧
  last_entity_id s' = last_entity_id s.
Proof.
  cbv zeta. rewrite added_to_hass_init. simpl.
  rewrite !export_lookup.
  unfold getattr. simpl.
  split_and!; by destruct s as [? ? ? ? ? ? ? [?|] [?|] [?|] [?|] [?|] [?|] ? ?].
Qed.

(** The attributes exported from an entity whose extrema are in order make
    an ordered snapshot. *)
Theorem exported_snapshot_ordered s :
  extrema_ordered s →
  snapshot_ordered float_of_string (Some (extra_state_attributes s)).
Proof.
  intros Hord a b. rewrite !export_lookup.
  unfold getattr. simpl.
  destruct (min_value s) as [m|] eqn:Em; [|done].
  destruct (max_value s) as [M|] eqn:EM; [|done].
  simpl. intros [= <-] [= <-]. by apply Hord.
Qed.

End Coverage.

(** ** The further properties at concrete inputs *)

Lemma two_readings_entity_ids : _entity_ids (two_readings false) = ["A"; "B"].
Proof. reflexivity. Qed.

Lemma calc_values_ignores_untracked_witness :
  ("C" ∉ _entity_ids (two_readings false)) ∧
  _calc_values (set_state "C" (Num (Fin 1)) (two_readings false))
    = set_state "C" (Num (Fin 1)) (_calc_values (two_readings false)).
Proof.
  assert (Hc : "C" ∉ _entity_ids (two_readings false)).
  { rewrite two_readings_entity_ids.
    intros [[=]|[[=]|[]%elem_of_nil]%elem_of_cons]%elem_of_cons. }
  split; [exact Hc|].
  exact (calc_values_ignores_untracked (two_readings false) "C" (Num (Fin 1)) Hc).
Defined.

Lemma calc_min_first_smallest_witness :
  no_nan [("A", Num (Fin 5)); ("B", Num (Fin 3)); ("C", Num (Fin 3))] ∧
  ∃ l1 l2,
    [("A", Num (Fin 5)); ("B", Num (Fin 3)); ("C", Num (Fin 3))]
      = (l1 ++ ("B", Num (Fin 3)) :: l2)%list ∧
    (∀ e' v, (e', Num v) ∈ l1 → (Fin 3 < v)%F) ∧
    (∀ e' v, (e', Num v) ∈ l2 → (Fin 3 <= v)%F).
Proof.
  assert (Hl : no_nan [("A", Num (Fin 5)); ("B", Num (Fin 3)); ("C", Num (Fin 3))]).
  { intros e v Hin.
    repeat (apply elem_of_cons in Hin as [Hin|Hin]; [by simplify_eq|]).
    by apply elem_of_nil in Hin. }
  split; [exact Hl|].
  by apply (calc_min_first_smallest _ "B" (Fin 3) Hl).
Defined.

Lemma calc_max_first_largest_witness :
  no_nan [("A", Num (Fin 5)); ("B", Num (Fin 7)); ("C", Num (Fin 7))] ∧
  ∃ l1 l2,
    [("A", Num (Fin 5)); ("B", Num (Fin 7)); ("C", Num (Fin 7))]
      = (l1 ++ ("B", Num (Fin 7)) :: l2)%list ∧
    (∀ e' v, (e', Num v) ∈ l1 → (v < Fin 7)%F) ∧
    (∀ e' v, (e', Num v) ∈ l2 → (v <= Fin 7)%F).
Proof.
  assert (Hl : no_nan [("A", Num (Fin 5)); ("B", Num (Fin 7)); ("C", Num (Fin 7))]).
  { intros e v Hin.
    repeat (apply elem_of_cons in Hin as [Hin|Hin]; [by simplify_eq|]).
    by apply elem_of_nil in Hin. }
  split; [exact Hl|].
  by apply (calc_max_first_largest _ "B" (Fin 7) Hl).
Defined.

Lemma calc_values_idempotent_and_covering_witness :
  nan_free (two_readings false) ∧
  within_extrema (_calc_values (two_readings false)).
Proof.
  split; [apply two_readings_nan_free|].
  apply (proj2 (calc_values_idempotent_and_covering (two_readings false))),
    two_readings_nan_free.
Defined.

Lemma earliest_tracked_entity_takes_minimum_witness :
  min_entity_id
    (_calc_values
       (set_state "B" (Num (Fin 5)) (set_state "A" (Num (Fin 5)) (init ["A"; "B"] "min" 2 false))))
  = Some "A".
Proof.
  apply (earliest_tracked_entity_takes_minimum
           (set_state "B" (Num (Fin 5)) (set_state "A" (Num (Fin 5)) (init ["A"; "B"] "min" 2 false)))
           [] "A" ["B"] (Fin 5)).
  - reflexivity.
  - reflexivity.
  - intros e' v Hin. by apply elem_of_nil in Hin.
  - intros e' v ->%list_elem_of_singleton Hv. vm_compute in Hv.
    injection Hv as <-. by vm_compute.
  - intros m Hm. by vm_compute in Hm.
Defined.

Lemma earliest_tracked_entity_takes_maximum_witness :
  max_entity_id
    (_calc_values
       (set_state "B" (Num (Fin 5)) (set_state "A" (Num (Fin 5)) (init ["A"; "B"] "max" 2 false))))
  = Some "A".
Proof.
  apply (earliest_tracked_entity_takes_maximum
           (set_state "B" (Num (Fin 5)) (set_state "A" (Num (Fin 5)) (init ["A"; "B"] "max" 2 false)))
           [] "A" ["B"] (Fin 5)).
  - reflexivity.
  - reflexivity.
  - intros e' v Hin. by apply elem_of_nil in Hin.
  - intros e' v ->%list_elem_of_singleton Hv. vm_compute in Hv.
    injection Hv as <-. by vm_compute.
  - intros M HM. by vm_compute in HM.
Defined.

Lemma native_value_bounds_stored_numbers_witness :
  nan_free (two_readings false) ∧
  _unit_of_measurement_mismatch (two_readings false) = false ∧
  ∃ r, native_value (_calc_values (two_readings false))
         = (_calc_values (two_readings false), Some r) ∧ (r <= Fin 10)%F.
Proof.
  split_and!; [apply two_readings_nan_free|reflexivity|].
  assert (Ha : "A" ∈ _entity_ids (two_readings false)) by (by left).
  exact (native_value_bounds_stored_numbers (two_readings false) "A" (Fin 10)
           (two_readings_nan_free false) eq_refl Ha eq_refl).
Defined.

Lemma run_keeps_recorded_unit_witness :
  _unit_of_measurement (two_readings false) = Some "kWh" ∧
  _unit_of_measurement
    (sample_run
       [Ingest (reading_in "Wh" "A" "20"); TimeReset;
        Restore (Some scenario_snapshot); Ingest (reading_in "Wh" "B" "1")]
       (two_readings false)) = Some "kWh".
Proof.
  split; [reflexivity|].
  apply (run_keeps_recorded_unit decimal_of_string round_decimal). reflexivity.
Defined.

Lemma mismatched_reading_leaves_only_flags_witness :
  sample_run [Ingest (reading "B" "1"); TimeReset]
    (sample_listener (reading_in "Wh" "A" "20") (two_readings false)).1
  = set_available false
      (set_mismatch true
         (sample_run [Ingest (reading "B" "1"); TimeReset] (two_readings false))).
Proof.
  assert (Hdiff : Some "Wh" ≠ Some "kWh") by discriminate.
  exact (mismatched_reading_leaves_only_flags decimal_of_string round_decimal
           (two_readings false) (reading_in "Wh" "A" "20") _ "kWh"
           [Ingest (reading "B" "1"); TimeReset]
           eq_refl eq_refl eq_refl Hdiff).
Defined.

Lemma accepted_reading_stays_between_extrema_witness :
  nan_free (init ["A"; "B"] "min" 2 false) ∧
  is_nan (round_decimal (Fin 10) 2) = false ∧
  "A" ∈ _entity_ids (init ["A"; "B"] "min" 2 false) ∧
  ∃ m, min_value
         (sample_run (Ingest <$> [reading "B" "3"; reading "A" "12.5"])
            (sample_listener (reading "A" "10") (init ["A"; "B"] "min" 2 false)).1)
       = Some m ∧ (m <= Fin 10)%F.
Proof.
  assert (Ha : "A" ∈ _entity_ids (init ["A"; "B"] "min" 2 false)) by (by left).
  split_and!; [apply nan_free_init|reflexivity|exact Ha|].
  exact (proj1 (accepted_reading_stays_between_extrema
                  decimal_of_string round_decimal
                  (init ["A"; "B"] "min" 2 false) (reading "A" "10") _ (Fin 10)
                  [reading "B" "3"; reading "A" "12.5"]
                  (nan_free_init _ _ _ _) eq_refl
                  eq_refl eq_refl eq_refl eq_refl Ha)).
Defined.

Lemma extrema_and_last_are_reported_values_witness :
  reported decimal_of_string round_decimal 2
    (ingested [Ingest (reading "A" "10"); TimeReset; Ingest (reading "B" "3");
               Recompute])
    (Fin 3).
Proof.
  apply (extrema_and_last_are_reported_values decimal_of_string round_decimal
           ["A"; "B"] "min" 2 false
           [Ingest (reading "A" "10"); TimeReset; Ingest (reading "B" "3");
            Recompute]
           eq_refl).
  left. reflexivity.
Defined.

Lemma inverted_restore_nan_free :
  nan_free (sample_run [Restore (Some inverted_snapshot)]
              (init ["A"; "B"] "min" 2 false)).
Proof.
  split.
  - intros e v.
    replace (states _) with (∅ : gmap string sensor_value) by (by vm_compute).
    by rewrite lookup_empty.
  - intros v [H|[H|H]]; vm_compute in H; by simplify_eq.
Qed.

Lemma executed_reset_orders_extrema_witness :
  nan_free (sample_run [Restore (Some inverted_snapshot)]
              (init ["A"; "B"] "min" 2 false)) ∧
  ¬ extrema_ordered
      (sample_run [Restore (Some inverted_snapshot)] (init ["A"; "B"] "min" 2 false)) ∧
  extrema_ordered
    (sample_run [Ingest (reading "A" "10"); Ingest (reading "B" "3")]
       (reset (sample_run [Restore (Some inverted_snapshot)]
                 (init ["A"; "B"] "min" 2 false))).1).
Proof.
  split_and!.
  - exact inverted_restore_nan_free.
  - intros H. specialize (H (Fin 5) (Fin 2) eq_refl eq_refl). by vm_compute in H.
  - apply (executed_reset_orders_extrema decimal_of_string round_decimal);
      [exact inverted_restore_nan_free|reflexivity|reflexivity|].
    by apply no_nan_reading_forallb.
Defined.

Lemma two_readings_ordered : extrema_ordered (two_readings false).
Proof.
  intros a b Ha Hb. vm_compute in Ha, Hb. by simplify_eq.
Qed.

Lemma exported_snapshot_ordered_witness :
  extrema_ordered (two_readings false) ∧
  snapshot_ordered decimal_of_string
    (Some (extra_state_attributes (two_readings false))).
Proof.
  split; [exact two_readings_ordered|].
  exact (exported_snapshot_ordered decimal_of_string (two_readings false)
           two_readings_ordered).
Defined.
